(** * Verification of the citation store and formatter of zotero-powerpoint-plugin

    Shallow embedding of [src/src/zotero/slide-citation.ts] (formatter,
    slide reference lists, rendering loop) and
    [src/src/zotero/citation-store.ts] (document-embedded citation store). *)

From Stdlib Require Import String Ascii List Bool Arith Lia.
From Stdlib Require Import DecimalString DecimalNat ZArith Permutation.
Import ListNotations.
Open Scope string_scope.

(** Outcome of JavaScript code that may throw. *)
Inductive Result (A : Type) : Type :=
| Ok (a : A)
| Throw (msg : string).
Arguments Ok {A} a.
Arguments Throw {A} msg.

Definition bind {A B} (r : Result A) (f : A -> Result B) : Result B :=
  match r with
  | Ok a => f a
  | Throw m => Throw m
  end.

Notation "x <- r ;; k" := (bind r (fun x => k))
  (at level 61, r at next level, right associativity).

Definition is_char (c d : ascii) : bool := Ascii.eqb c d.

(** [String.prototype.split] on a one-character separator. *)
Fixpoint split_on (sep : ascii) (s : string) : list string :=
  match s with
  | EmptyString => [EmptyString]
  | String c s' =>
      match split_on sep s' with
      | [] => [] (* not reached: split always yields one piece *)
      | p :: ps => if is_char c sep then EmptyString :: p :: ps
                   else String c p :: ps
      end
  end.

(** [Array.prototype.join]. *)
Fixpoint join_on (sep : string) (l : list string) : string :=
  match l with
  | [] => EmptyString
  | [x] => x
  | x :: xs => x ++ sep ++ join_on sep xs
  end.

(** [String.prototype.includes] on an array of strings. *)
Definition includes (l : list string) (k : string) : bool :=
  existsb (String.eqb k) l.

Definition nat_to_string (n : nat) : string :=
  NilEmpty.string_of_uint (Nat.to_uint n).

(** ** The citation formatter ([class CitationFormatter]) *)
Module Formatter.

Record ZoteroCreator := {
  creatorType : string;
  firstName : option string;
  lastName : option string;
  name : option string
}.

(** An item: its key, its creators and its optional string fields by name
    ([title], [date], [publicationTitle], ...). *)
Record ZoteroItemData := {
  key : string;
  creators : list ZoteroCreator;
  fields : list (string * string)
}.

Definition field (c : ZoteroItemData) (f : string) : option string :=
  match find (fun p => String.eqb (fst p) f) (fields c) with
  | Some (_, v) => Some v
  | None => None
  end.

(** JavaScript [v || fallback] on an optional string. *)
Definition or_else (v : option string) (fallback : string) : string :=
  match v with
  | Some s => if String.eqb s "" then fallback else s
  | None => fallback
  end.

(** [getDisplayName(creator, fallback)]; [None] is the JavaScript
    [undefined] read out of range, on which [creator.lastName] throws. *)
Definition getDisplayName (creator : option ZoteroCreator) (fallback : string)
  : Result string :=
  match creator with
  | None => Throw "TypeError: Cannot read properties of undefined (reading 'lastName')"
  | Some cr =>
      Ok match lastName cr with
         | Some l => l
         | None => match name cr with Some n => n | None => fallback end
         end
  end.

(** [getCreator(creators, fallback)]. *)
Definition getCreator (creators : list ZoteroCreator) (fallback : string)
  : Result string :=
  if Nat.eqb (length creators) 0 then Ok fallback
  else if Nat.eqb (length creators) 1 then
    n0 <- getDisplayName (nth_error creators 0) fallback ;;
    n1 <- getDisplayName (nth_error creators 1) fallback ;;
    Ok (n0 ++ " and " ++ n1)
  else
    n0 <- getDisplayName (nth_error creators 0) fallback ;;
    Ok (n0 ++ " et al.").

(** The replacement-pattern expansion of [String.prototype.replace]
    ([$$], [$&], [$`], [$']). *)
Fixpoint expand_replacement (rep matched before after : string) : string :=
  match rep with
  | String c r =>
      let plain := String c (expand_replacement r matched before after) in
      if is_char c "$" then
        match r with
        | String d r' =>
            if is_char d "$" then String "$" (expand_replacement r' matched before after)
            else if is_char d "&" then matched ++ expand_replacement r' matched before after
            else if is_char d "`" then before ++ expand_replacement r' matched before after
            else if is_char d "'" then after ++ expand_replacement r' matched before after
            else plain
        | EmptyString => plain
        end
      else plain
  | EmptyString => EmptyString
  end.

(** [s.replace(pat, rep)] with a string pattern: first occurrence only. *)
Fixpoint replace_aux (pat rep before s : string) : option string :=
  if String.prefix pat s then
    let after := substring (String.length pat) (String.length s - String.length pat) s in
    Some (expand_replacement rep pat before after ++ after)
  else
    match s with
    | EmptyString => None
    | String c s' =>
        option_map (String c) (replace_aux pat rep (before ++ String c EmptyString) s')
    end.

Definition js_replace (s pat rep : string) : string :=
  match replace_aux pat rep EmptyString s with
  | Some r => r
  | None => s
  end.

(** [private async getJournalAbbreviation(citation)]; the external lookup
    [getJournalAbbreviation(title)] of [journal-abbreviations] is the
    argument [lookup]. *)
Definition journal_abbreviation (lookup : string -> option string)
  (c : ZoteroItemData) : option string :=
  let ja := field c "journalAbbreviation" in
  let pt := field c "publicationTitle" in
  let ja_differs :=
    match ja, pt with
    | Some a, Some p => negb (String.eqb a p)
    | Some _, None => true
    | None, _ => false
    end in
  if negb (String.eqb (or_else ja "") "") && ja_differs then ja
  else if String.eqb (or_else pt "") "" then None
  else match lookup (or_else pt "") with
       | Some a => Some a
       | None => pt
       end.

(** The [year] constant of [format]. *)
Definition year_of (c : ZoteroItemData) : string :=
  match field c "date" with
  | Some d => if String.eqb d "" then "n.d."
              else match split_on "-" d with p :: _ => p | [] => d end
  | None => "n.d."
  end.

Record FormattedText := { text : string; bold : bool; italic : bool }.

(** A match of [/<(\/?)([bi])>/] at the head of [s]: is it a closing tag,
    the tag letter, and the text after it. *)
Definition tag_at (s : string) : option (bool * ascii * string) :=
  match s with
  | String c1 (String c2 (String c3 r)) =>
      if is_char c1 "<" && (is_char c2 "b" || is_char c2 "i") && is_char c3 ">"
      then Some (false, c2, r)
      else match r with
           | String c4 r' =>
               if is_char c1 "<" && is_char c2 "/" && (is_char c3 "b" || is_char c3 "i")
                  && is_char c4 ">"
               then Some (true, c3, r')
               else None
           | EmptyString => None
           end
  | _ => None
  end.

(** [formatRegex.exec(text)] from the current index: the text before the
    leftmost match, the match, and the text after it. *)
Fixpoint exec (s : string) : option (string * (bool * ascii) * string) :=
  match tag_at s with
  | Some (cl, t, r) => Some (EmptyString, (cl, t), r)
  | None =>
      match s with
      | EmptyString => None
      | String c s' =>
          match exec s' with
          | Some (pre, m, r) => Some (String c pre, m, r)
          | None => None
          end
      end
  end.

Definition push_text (txt : string) (b i : bool) : list FormattedText :=
  if String.eqb txt "" then [] else [{| text := txt; bold := b; italic := i |}].

(** The [while] loop of [parseFormattedText]; [fuel] bounds the iterations
    (one per match, at most the length of the text). *)
Fixpoint parse_loop (fuel : nat) (s : string) (isBold isItalic : bool)
  : list FormattedText :=
  match fuel with
  | O => push_text s isBold isItalic
  | S f =>
      match exec s with
      | Some (pre, (isClosing, tagType), r) =>
          let isBold' := if is_char tagType "b" then negb isClosing else isBold in
          let isItalic' :=
            if is_char tagType "b" then isItalic
            else if is_char tagType "i" then negb isClosing else isItalic in
          push_text pre isBold isItalic ++ parse_loop f r isBold' isItalic'
      | None => push_text s isBold isItalic
      end
  end.

Definition parseFormattedText (text : string) : list FormattedText :=
  parse_loop (S (String.length text)) text false false.

(** [async format(citation, extras)] for the template [fmt]. *)
Definition format (fmt : string) (lookup : string -> option string)
  (c : ZoteroItemData) (index startIndex : option nat)
  : Result (list FormattedText) :=
  let year := year_of c in
  creator <- getCreator (creators c) "Unknown" ;;
  let ja := match journal_abbreviation lookup c with Some a => a | None => "" end in
  let f := field c in
  let t := fmt in
  let t := js_replace t "{creator}" (or_else (Some creator) "Unknown") in
  let t := js_replace t "{title}" (or_else (f "title") "No Title") in
  let t := js_replace t "{key}" (key c) in
  let t := js_replace t "{itemType}" (or_else (f "itemType") "Unknown Type") in
  let t := js_replace t "{abstractNote}" (or_else (f "abstractNote") "No Abstract") in
  let t := js_replace t "{publicationTitle}" (or_else (f "publicationTitle") "No Publication") in
  let t := js_replace t "{volume}" (or_else (f "volume") "No Volume") in
  let t := js_replace t "{issue}" (or_else (f "issue") "No Issue") in
  let t := js_replace t "{pages}" (or_else (f "pages") "No Pages") in
  let t := js_replace t "{publisher}" (or_else (f "publisher") "No Publisher") in
  let t := js_replace t "{DOI}" (or_else (f "DOI") "No DOI") in
  let t := js_replace t "{ISBN}" (or_else (f "ISBN") "No ISBN") in
  let t := js_replace t "{URL}" (or_else (f "url") "No URL") in
  let t := js_replace t "{accessDate}" (or_else (f "accessDate") "No Access Date") in
  let t := js_replace t "{archive}" (or_else (f "archive") "No Archive") in
  let t := js_replace t "{archiveLocation}" (or_else (f "archiveLocation") "No Archive Location") in
  let t := js_replace t "{libraryCatalog}" (or_else (f "libraryCatalog") "No Library Catalog") in
  let t := js_replace t "{callNumber}" (or_else (f "callNumber") "No Call Number") in
  let t := js_replace t "{rights}" (or_else (f "rights") "No Rights Info") in
  let t := js_replace t "{date}" (or_else (f "date") "No Date") in
  let t := js_replace t "{extra}" (or_else (f "extra") "No Extra Info") in
  let t := js_replace t "{series}" (or_else (f "series") "No Series") in
  let t := js_replace t "{seriesNumber}" (or_else (f "seriesNumber") "No Series Number") in
  let t := js_replace t "{institution}" (or_else (f "institution") "No Institution") in
  let t := js_replace t "{department}" (or_else (f "department") "No Department") in
  let t := js_replace t "{year}" year in
  let t := js_replace t "{journalAbbreviation}" ja in
  let t := js_replace t "{#}"
             (match index with
              | Some i => nat_to_string (i + match startIndex with Some s => s | None => 0 end + 1)
              | None => "#"
              end) in
  Ok (parseFormattedText t).

End Formatter.

(** ** Definitions following the spec's words, to compare with the code *)
Module FormatterSpec.
Import Formatter.

(** The creator label as the spec describes it: 0 creators the fallback,
    1 the display name, 2 ["A and B"], 3 or more ["A et al."]. *)
Definition display_name_spec (cr : ZoteroCreator) (fallback : string) : string :=
  match lastName cr, name cr with
  | Some l, _ => l
  | None, Some n => n
  | None, None => fallback
  end.

Definition creator_label_spec (creators : list ZoteroCreator) (fallback : string)
  : string :=
  match creators with
  | [] => fallback
  | [a] => display_name_spec a fallback
  | [a; b] => display_name_spec a fallback ++ " and " ++ display_name_spec b fallback
  | a :: _ => display_name_spec a fallback ++ " et al."
  end.

(** Toggle semantics, character by character: an opening tag sets its style,
    the closing tag clears it, every other character carries the current
    styles. *)
Fixpoint styled_chars (s : string) (b i : bool) : list (ascii * bool * bool) :=
  match s with
  | EmptyString => []
  | String c r =>
      let other := (c, b, i) :: styled_chars r b i in
      match r with
      | String c2 (String c3 r3) =>
          if is_char c "<" && is_char c2 "b" && is_char c3 ">" then styled_chars r3 true i
          else if is_char c "<" && is_char c2 "i" && is_char c3 ">" then styled_chars r3 b true
          else match r3 with
               | String c4 r4 =>
                   if is_char c "<" && is_char c2 "/" && is_char c3 "b" && is_char c4 ">"
                   then styled_chars r4 false i
                   else if is_char c "<" && is_char c2 "/" && is_char c3 "i" && is_char c4 ">"
                   then styled_chars r4 b false
                   else other
               | EmptyString => other
               end
      | _ => other
      end
  end.

(** The input with every [<b>], [</b>], [<i>], [</i>] token removed. *)
Fixpoint strip_tags (s : string) : string :=
  match s with
  | EmptyString => EmptyString
  | String c r =>
      let other := String c (strip_tags r) in
      match r with
      | String c2 (String c3 r3) =>
          if is_char c "<" && (is_char c2 "b" || is_char c2 "i") && is_char c3 ">"
          then strip_tags r3
          else match r3 with
               | String c4 r4 =>
                   if is_char c "<" && is_char c2 "/" && (is_char c3 "b" || is_char c3 "i")
                      && is_char c4 ">"
                   then strip_tags r4
                   else other
               | EmptyString => other
               end
      | _ => other
      end
  end.

Definition chars_with (s : string) (b i : bool) : list (ascii * bool * bool) :=
  map (fun c => (c, b, i)) (list_ascii_of_string s).

Definition seg_chars (x : FormattedText) : list (ascii * bool * bool) :=
  chars_with (text x) (bold x) (italic x).

Definition flat_segments (l : list FormattedText) : list (ascii * bool * bool) :=
  concat (map seg_chars l).

Definition concat_text (l : list FormattedText) : string :=
  fold_right (fun x acc => text x ++ acc) EmptyString l.

End FormatterSpec.

(** ** JavaScript values as read back from the persisted XML part *)
Module Js.

(** Values of the objects held by the store. Arrays occur as object field
    values ([creators], [tags], [collections]); a number is kept by its
    [toString] form. *)
Inductive jsval : Type :=
| JUndef
| JBool (b : bool)
| JNum (repr : string)
| JStr (s : string)
| JObj (fs : list (string * jfield))
with jfield : Type :=
| FVal (v : jsval)
| FArr (vs : list jsval).

Section JsInd.
Variables (P : jsval -> Prop) (Q : jfield -> Prop).
Hypotheses
  (HU : P JUndef) (HB : forall b, P (JBool b)) (HN : forall r, P (JNum r))
  (HS : forall s, P (JStr s))
  (HO : forall fs, Forall (fun p => Q (snd p)) fs -> P (JObj fs))
  (HV : forall v, P v -> Q (FVal v))
  (HA : forall vs, Forall P vs -> Q (FArr vs)).

Fixpoint jsval_ind' (v : jsval) : P v :=
  match v with
  | JUndef => HU
  | JBool b => HB b
  | JNum r => HN r
  | JStr s => HS s
  | JObj fs =>
      HO fs ((fix go (fs : list (string * jfield)) : Forall (fun p => Q (snd p)) fs :=
                match fs with
                | [] => Forall_nil _
                | (n, f) :: rest => Forall_cons (n, f) (jfield_ind' f) (go rest)
                end) fs)
  end
with jfield_ind' (f : jfield) : Q f :=
  match f with
  | FVal v => HV v (jsval_ind' v)
  | FArr vs =>
      HA vs ((fix go (vs : list jsval) : Forall P vs :=
                match vs with
                | [] => Forall_nil _
                | v :: rest => Forall_cons v (jsval_ind' v) (go rest)
                end) vs)
  end.
End JsInd.

Definition is_defined (v : jsval) : bool :=
  match v with JUndef => false | _ => true end.

(** JavaScript truthiness. *)
Definition truthy (v : jsval) : bool :=
  match v with
  | JUndef => false
  | JBool b => b
  | JNum r => negb (String.eqb r "0")
  | JStr s => negb (String.eqb s "")
  | JObj _ => true
  end.

Definition truthy_f (f : jfield) : bool :=
  match f with FVal v => truthy v | FArr _ => true end.

Definition is_string_f (f : jfield) : bool :=
  match f with FVal (JStr _) => true | _ => false end.

(** [String(v)] of an array element ([undefined] joins as the empty string). *)
Definition elem_string (v : jsval) : string :=
  match v with
  | JUndef => ""
  | JBool true => "true"
  | JBool false => "false"
  | JNum r => r
  | JStr s => s
  | JObj _ => "[object Object]"
  end.

(** [v.toString()]; arrays join their elements with commas. *)
Definition to_string_f (f : jfield) : string :=
  match f with
  | FVal v => elem_string v
  | FArr vs => join_on "," (map elem_string vs)
  end.

(** The value of property [n] ([undefined] when absent). *)
Definition get_field (fs : list (string * jfield)) (n : string) : option jfield :=
  match find (fun p => String.eqb (fst p) n) fs with
  | Some (_, f) => Some f
  | None => None
  end.

(** Assignment to an existing property keeps its position. *)
Fixpoint set_field (fs : list (string * jfield)) (n : string) (f : jfield)
  : list (string * jfield) :=
  match fs with
  | [] => [(n, f)]
  | (m, g) :: rest => if String.eqb m n then (m, f) :: rest else (m, g) :: set_field rest n f
  end.

Definition key_of (v : jsval) : jfield :=
  match v with
  | JObj fs => match get_field fs "key" with Some f => f | None => FVal JUndef end
  | _ => FVal JUndef
  end.

(** [a === b] on property values: primitives by value, objects and arrays
    by reference (a parsed object is never the caller's object). *)
Definition strict_eq (a b : jfield) : bool :=
  match a, b with
  | FVal JUndef, FVal JUndef => true
  | FVal (JBool x), FVal (JBool y) => Bool.eqb x y
  | FVal (JNum x), FVal (JNum y) => String.eqb x y
  | FVal (JStr x), FVal (JStr y) => String.eqb x y
  | _, _ => false
  end.

(** *** The XML reader as configured in the [CitationStore] constructor

    [XMLBuilder] writes every property as a child element (array properties
    as repeated elements, [undefined] ones not at all) and [XMLParser] with
    [parseTagValue: true, trimValues: true] reads them back. The parser first
    turns every line end [\r\n] or lone [\r] of the document into [\n]; it
    then trims each text, reads ["true"]/["false"] as booleans and numeric
    text as a number (strnum's [toNumber] with [hex], [leadingZeros] and
    [eNotation] on); an element without content becomes [""], a repeated
    element becomes an array and a single one a scalar.

    Strings are sequences of UTF-16 code units below 256. A number is kept
    by its [toString] form. The numeric forms read as numbers here are
    decimals [[+-]?d*(.d+)?] with at least one digit and hexadecimals
    [[+-]?0x h+], when the value is exact in a double and [toString] writes
    it without an exponent: an integer up to [2^53], or at most 15
    significant digits with a decimal exponent [n] (the value is
    [0.ds * 10^n]) with [-6 < n <= 21]. The remaining numeric forms are left
    as text in this model: exponent forms ([1e5]), a trailing point ([5.]),
    [/0x...] (read as [NaN]), and values that need rounding or print with an
    exponent; they depend on the parser version. *)
Definition is_ws (c : ascii) : bool :=
  let n := nat_of_ascii c in
  (Nat.leb 9 n && Nat.leb n 13) || Nat.eqb n 32 || Nat.eqb n 160.

(** The line-end normalisation of the document ([/\r\n?/g] to ["\n"]). *)
Fixpoint eol (s : string) : string :=
  match s with
  | EmptyString => EmptyString
  | String c s' =>
      if is_char c "013" then
        match s' with
        | String d s'' => if is_char d "010" then String "010" (eol s'') else String "010" (eol s')
        | EmptyString => String "010" EmptyString
        end
      else String c (eol s')
  end.

Fixpoint ltrim (s : string) : string :=
  match s with
  | EmptyString => EmptyString
  | String c s' => if is_ws c then ltrim s' else s
  end.

Fixpoint rtrim (s : string) : string :=
  match s with
  | EmptyString => EmptyString
  | String c s' =>
      let r := rtrim s' in
      if String.eqb r "" && is_ws c then EmptyString else String c r
  end.

(** [String.prototype.trim]. *)
Definition trim (s : string) : string := rtrim (ltrim s).

Definition is_digit (c : ascii) : bool :=
  let n := nat_of_ascii c in Nat.leb 48 n && Nat.leb n 57.

Definition is_nil {A} (l : list A) : bool := match l with [] => true | _ => false end.

Definition is_hex (c : ascii) : bool :=
  let n := nat_of_ascii c in
  is_digit c || (Nat.leb 97 n && Nat.leb n 102) || (Nat.leb 65 n && Nat.leb n 70).

Definition hex_val (c : ascii) : Z :=
  let n := nat_of_ascii c in
  if Nat.leb 97 n then Z.of_nat (n - 87)
  else if Nat.leb 65 n then Z.of_nat (n - 55)
  else Z.of_nat (n - 48).

Definition digit_val (c : ascii) : Z := Z.of_nat (nat_of_ascii c - 48).

(** The value of a digit string in a base. *)
Definition value_in (base : Z) (dv : ascii -> Z) (l : list ascii) : Z :=
  fold_left (fun acc c => (acc * base + dv c)%Z) l 0%Z.

(** The decimal digits of a non-negative integer ([Number.parseInt(t, 16)]
    of a hexadecimal text, written in decimal). *)
Definition dec_digits (v : Z) : list ascii :=
  list_ascii_of_string (NilZero.string_of_uint (N.to_uint (Z.to_N v))).

(** Leading zeros removed. *)
Fixpoint drop0 (l : list ascii) : list ascii :=
  match l with
  | c :: r => if is_char c "0" then drop0 r else l
  | [] => []
  end.

(** Trailing zeros removed. *)
Fixpoint rstrip0 (l : list ascii) : list ascii :=
  match l with
  | [] => []
  | c :: r =>
      match rstrip0 r with
      | [] => if is_char c "0" then [] else [c]
      | r' => c :: r'
      end
  end.

(** [toString] of the number [0.ds * 10^n] without an exponent. *)
Definition fmt_digits (ds : list ascii) (n : Z) : list ascii :=
  let k := Z.of_nat (length ds) in
  if (k <=? n)%Z then (ds ++ repeat "0"%char (Z.to_nat (n - k)))%list
  else if (0 <? n)%Z then (firstn (Z.to_nat n) ds ++ "."%char :: skipn (Z.to_nat n) ds)%list
  else ("0"%char :: "."%char :: repeat "0"%char (Z.to_nat (- n)) ++ ds)%list.

(** The significant digits [ds] (no leading or trailing zero) with exponent
    [n] are a double without rounding that [toString] writes without an
    exponent. *)
Definition accepts (ds : list ascii) (n : Z) : bool :=
  let k := Z.of_nat (length ds) in
  ((k <=? n) && (value_in 10 digit_val ds * 10 ^ (n - k) <=? 2 ^ 53))%Z
  || ((k <=? 15) && (-6 <? n) && (n <=? 21))%Z.

(** [toString] of the decimal with integer digits [ip] and fraction digits
    [fp], when the model reads it as a number. *)
Definition dec_number (neg : bool) (ip fp : list ascii) : option (list ascii) :=
  let D := (ip ++ fp)%list in
  if is_nil D || negb (forallb is_digit D) then None else
  let S0 := drop0 D in
  match rstrip0 S0 with
  | [] => Some ["0"%char]
  | ds =>
      let n := (Z.of_nat (length S0) - Z.of_nat (length fp))%Z in
      if accepts ds n then Some ((if neg then ["-"%char] else []) ++ fmt_digits ds n)%list
      else None
  end.

Definition split_sign (l : list ascii) : bool * list ascii :=
  match l with
  | c :: r => if is_char c "-" then (true, r) else if is_char c "+" then (false, r) else (false, l)
  | [] => (false, [])
  end.

Fixpoint split_dot (l : list ascii) : list ascii * option (list ascii) :=
  match l with
  | [] => ([], None)
  | c :: r => if is_char c "." then ([], Some r)
              else let '(ip, fp) := split_dot r in (c :: ip, fp)
  end.

Definition dec_part (neg : bool) (r : list ascii) : option (list ascii) :=
  match split_dot r with
  | (ip, None) => dec_number neg ip []
  | (ip, Some fp) => if is_nil fp then None else dec_number neg ip fp
  end.

(** [toNumber] of a trimmed text: [Some] of the number's [toString], or
    [None] when the text is kept. *)
Definition num_chars (t : list ascii) : option (list ascii) :=
  let '(neg, r) := split_sign t in
  match r with
  | z :: x :: h =>
      if is_char z "0" && is_char x "x" then
        if negb (is_nil h) && forallb is_hex h
        then dec_number neg (dec_digits (value_in 16 hex_val h)) []
        else None
      else dec_part neg r
  | _ => dec_part neg r
  end.

Definition num_text (t : string) : option string :=
  option_map string_of_list_ascii (num_chars (list_ascii_of_string t)).

(** The value read back for element text [s]. *)
Definition xml_text (s : string) : jsval :=
  let t := trim (eol s) in
  if String.eqb t "true" then JBool true
  else if String.eqb t "false" then JBool false
  else match num_text t with
       | Some n => JNum n
       | None => JStr t
       end.

(** The elements of an array property read back ([undefined] elements are
    not written). *)
Fixpoint xml_elems_with (xv : jsval -> jsval) (ws : list jsval) : list jsval :=
  match ws with
  | [] => []
  | JUndef :: r => xml_elems_with xv r
  | w :: r => xv w :: xml_elems_with xv r
  end.

(** The properties of an object read back: [undefined] and empty-array
    properties vanish, a one-element array becomes its element. Each name is
    read back as written, as it is for XML names made of letters and digits
    that are not properties of [Object.prototype] (see [names_ok]). *)
Fixpoint xml_fields_with (xv : jsval -> jsval) (fs : list (string * jfield))
  : list (string * jfield) :=
  match fs with
  | [] => []
  | (n, FVal JUndef) :: rest => xml_fields_with xv rest
  | (n, FVal w) :: rest => (n, FVal (xv w)) :: xml_fields_with xv rest
  | (n, FArr ws) :: rest =>
      match xml_elems_with xv ws with
      | [] => xml_fields_with xv rest
      | [w'] => (n, FVal w') :: xml_fields_with xv rest
      | ws' => (n, FArr ws') :: xml_fields_with xv rest
      end
  end.

(** The value read back for a value written as one element. *)
Fixpoint xml_value (v : jsval) : jsval :=
  match v with
  | JUndef => JUndef
  | JBool b => JBool b
  | JNum r => xml_text r
  | JStr s => xml_text s
  | JObj fs =>
      match xml_fields_with xml_value fs with
      | [] => JStr ""
      | fs' => JObj fs'
      end
  end.

End Js.

(** ** The citation store ([class CitationStore]) *)
Module Store.
Import Js.

(** The per-citation loop of [getCitationStoreXml]: keys become strings,
    a single creator becomes a one-element array. *)
Definition normalize (citation : jsval) : jsval :=
  match citation with
  | JObj fs =>
      let fs1 :=
        match get_field fs "key" with
        | Some k => if truthy_f k && negb (is_string_f k)
                    then set_field fs "key" (FVal (JStr (to_string_f k)))
                    else fs
        | None => fs
        end in
      let fs2 :=
        match get_field fs1 "creators" with
        | Some (FVal c) => if truthy c then set_field fs1 "creators" (FArr [c]) else fs1
        | _ => fs1
        end in
      JObj fs2
  | _ => citation
  end.

(** [storeXml.citations.citation] after parsing the block written from the
    list [written]: no element gives an empty [citations] element (reset to
    [[]]), a single element is read as a scalar (wrapped back, or reset to
    [[]] when falsy). *)
Definition load_citations (written : list jsval) : list jsval :=
  let parsed := map xml_value (filter is_defined written) in
  match parsed with
  | [x] => if truthy x then [x] else []
  | _ => parsed
  end.

(** The document: the citation list last written to the XML part ([[]]
    when the part is new or was deleted), the number of [setXml] writes, and
    the [ZOTERO_CITATIONS] tag of each slide. *)
Record Doc := {
  block : list jsval;
  saves : nat;
  slides : list (option string)
}.

(** [getCitationStoreXml]. *)
Definition load (d : Doc) : list jsval := map normalize (load_citations (block d)).

(** [saveCitationStoreXml]. *)
Definition save (d : Doc) (citations : list jsval) : Doc :=
  {| block := citations; saves := S (saves d); slides := slides d |}.

(** [add(citation)]. *)
Definition add (citation : jsval) (d : Doc) : Doc :=
  let stored := load d in
  let kept := filter (fun existing => negb (strict_eq (key_of existing) (key_of citation)))
                stored in
  save d (kept ++ [citation]).

(** [getAll()] as a map and its [get]: a later entry overrides an earlier
    one under the same key. *)
Definition map_get (items : list jsval) (k : jfield) : option jsval :=
  fold_left (fun acc c => if strict_eq (key_of c) k then Some c else acc) items None.

(** [getItem(keys)] on an array of keys. *)
Definition getItem (keys : list string) (d : Doc) : list (option jsval) :=
  let items := load d in
  map (fun k => map_get items (FVal (JStr k))) keys.

(** [remove(key)]. *)
Definition remove (k : string) (d : Doc) : bool * Doc :=
  let stored := load d in
  let kept := filter (fun cit => negb (strict_eq (key_of cit) (FVal (JStr k)))) stored in
  if Nat.ltb (length kept) (length stored) then (true, save d kept) else (false, d).

(** [clearStore()]: the part is deleted; it is recreated empty on next use. *)
Definition clearStore (d : Doc) : Doc :=
  {| block := []; saves := saves d; slides := slides d |}.

(** The [usedKeys] set of [prune()]. *)
Definition used_keys (tags : list (option string)) : list string :=
  flat_map (fun t => match t with
                     | Some v => if String.eqb v "" then [] else split_on "," v
                     | None => []
                     end) tags.

Definition set_has (s : list string) (k : jfield) : bool :=
  match k with FVal (JStr x) => includes s x | _ => false end.

(** [prune()]. *)
Definition prune (d : Doc) : nat * Doc :=
  let usedKeys := used_keys (slides d) in
  let stored := load d in
  let originalCount := length stored in
  let kept := filter (fun cit => set_has usedKeys (key_of cit)) stored in
  (originalCount - length kept, save d kept).

(** Store operations, for runs of several calls. *)
Inductive store_op :=
| OpAdd (citation : jsval)
| OpRemove (k : string)
| OpPrune
| OpClear.

Definition step (o : store_op) (d : Doc) : Doc :=
  match o with
  | OpAdd c => add c d
  | OpRemove k => snd (remove k d)
  | OpPrune => snd (prune d)
  | OpClear => clearStore d
  end.

Definition run (ops : list store_op) (d : Doc) : Doc :=
  fold_left (fun d o => step o d) ops d.

End Store.

(** ** Slide reference lists and rendering ([slide-citation.ts]) *)
Module Slides.
Import Formatter.

(** [getCitationKeysOnSlide]: the tag value, [None] for the null object. *)
Definition getCitationKeysOnSlide (tag : option string) : list string :=
  match tag with
  | None => []
  | Some v => if String.eqb v "" then [] else split_on "," v
  end.

(** [addCitationKeyToSlide]: the slide's tag after the call. *)
Definition addCitationKeyToSlide (citationKey : string) (tag : option string)
  : option string :=
  let citationKeys := getCitationKeysOnSlide tag in
  if negb (includes citationKeys citationKey)
  then Some (join_on "," (citationKeys ++ [citationKey]))
  else tag.

(** The [for ... of citations.entries()] loop of [showCitationsOnSlide]:
    the segments in the order they are pushed to [allSegments]. *)
Fixpoint render_loop {A} (fmt : nat -> A -> Result (list FormattedText))
  (delimiter : string) (total index : nat) (citations : list (option A))
  : Result (list FormattedText) :=
  match citations with
  | [] => Ok []
  | None :: rest => render_loop fmt delimiter total (S index) rest
  | Some citation :: rest =>
      formattedSegments <- fmt index citation ;;
      let delim :=
        if Nat.ltb index (total - 1)
        then [{| text := delimiter; bold := false; italic := false |}] else [] in
      tail <- render_loop fmt delimiter total (S index) rest ;;
      Ok (formattedSegments ++ delim ++ tail)%list
  end.

(** [allCitations.get(key)] on a map of items by key. *)
Definition lookup_item (items : list ZoteroItemData) (k : string) : option ZoteroItemData :=
  find (fun c => String.eqb (key c) k) items.

(** The segments [showCitationsOnSlide] writes for the slide's keys. *)
Definition show_segments (template delimiter : string) (lookup : string -> option string)
  (items : list ZoteroItemData) (citationKeys : list string)
  : Result (list FormattedText) :=
  let citations := map (lookup_item items) citationKeys in
  render_loop (fun i c => format template lookup c (Some i) None) delimiter
    (length citations) 0 citations.

End Slides.

(** ** Definitions following the spec's words for the store and the slides *)
Module StoreSpec.
Import Js Store.

(** Text the persisted format reads back unchanged: no surrounding
    whitespace, no carriage return, not starting like a number
    ([+ - . / 0-9]), not a boolean literal. *)
Definition starts_numeric (s : string) : bool :=
  match s with
  | String c _ => existsb (is_char c) (list_ascii_of_string "+-./0123456789")
  | EmptyString => false
  end.

Definition has_cr (s : string) : bool :=
  existsb (fun c => is_char c "013") (list_ascii_of_string s).

Definition plain_text (s : string) : bool :=
  String.eqb (trim s) s && negb (has_cr s) && negb (starts_numeric s)
  && negb (String.eqb s "true") && negb (String.eqb s "false").

(** Decimal integers of at most 15 digits without leading zeros: numbers
    whose [toString] reads back as the same number. *)
Definition is_int_literal (t : string) : bool :=
  match t with
  | EmptyString => false
  | String c rest =>
      forallb is_digit (list_ascii_of_string t)
      && (String.eqb t "0" || negb (is_char c "0"))
      && Nat.leb (String.length t) 15
  end.

Definition is_letter (c : ascii) : bool :=
  let n := nat_of_ascii c in (Nat.leb 65 n && Nat.leb n 90) || (Nat.leb 97 n && Nat.leb n 122).

Fixpoint distinct (l : list string) : bool :=
  match l with
  | [] => true
  | x :: r => negb (includes r x) && distinct r
  end.

(** The properties of [Object.prototype] whose names are made of letters. *)
Definition proto_names : list string :=
  ["constructor"; "hasOwnProperty"; "isPrototypeOf"; "propertyIsEnumerable";
   "toLocaleString"; "toString"; "valueOf"].

(** A property name written as an element name and read back as itself:
    a letter followed by letters and digits, not a property of
    [Object.prototype]. *)
Definition name_ok (n : string) : bool :=
  match n with
  | String c r =>
      is_letter c && forallb (fun d => is_letter d || is_digit d) (list_ascii_of_string r)
      && negb (includes proto_names n)
  | EmptyString => false
  end.

(** Property names written as plain elements: distinct and [name_ok]. *)
Definition names_ok (fs : list (string * jfield)) : bool :=
  distinct (map fst fs) && forallb name_ok (map fst fs).

Fixpoint plain_elems_with (pv : jsval -> bool) (vs : list jsval) : bool :=
  match vs with
  | [] => true
  | v :: r => pv v && plain_elems_with pv r
  end.

Fixpoint plain_fields_with (pv : jsval -> bool) (fs : list (string * jfield)) : bool :=
  match fs with
  | [] => true
  | (_, FVal v) :: rest => pv v && plain_fields_with pv rest
  | (_, FArr vs) :: rest =>
      Nat.leb 2 (length vs) && plain_elems_with pv vs && plain_fields_with pv rest
  end.

(** Values that the persisted format reads back unchanged. *)
Fixpoint plain_value (v : jsval) : bool :=
  match v with
  | JUndef => false
  | JBool _ => true
  | JNum r => is_int_literal r
  | JStr s => plain_text s
  | JObj fs =>
      match fs with [] => false | _ => true end
      && names_ok fs && plain_fields_with plain_value fs
  end.

(** A citation whose every field survives the round trip: a plain string
    key, plain fields, and [creators] an array of at least one non-empty
    object (a single one is read as a scalar and wrapped back). *)
Definition plain_record (r : jsval) : bool :=
  match r with
  | JObj fs =>
      names_ok fs
      && match get_field fs "key" with Some (FVal (JStr k)) => plain_text k | _ => false end
      && forallb (fun p =>
           if String.eqb (fst p) "creators" then
             match snd p with
             | FArr vs => Nat.leb 1 (length vs)
                          && forallb (fun v => plain_value v && match v with JObj _ => true | _ => false end) vs
             | FVal _ => false
             end
           else plain_fields_with plain_value [p]) fs
  | _ => false
  end.

(** A record is referenced by some slide whose tag lists its key. *)
Definition referenced (tags : list (option string)) (x : jsval) : bool :=
  match key_of x with
  | FVal (JStr k) =>
      existsb (fun t => match t with
                        | Some v => negb (String.eqb v "") && includes (split_on "," v) k
                        | None => false
                        end) tags
  | _ => false
  end.

(** Runs whose upserted records all have plain string keys. *)
Definition op_plain (o : store_op) : bool :=
  match o with
  | OpAdd c => match key_of c with FVal (JStr k) => plain_text k | _ => false end
  | _ => true
  end.

Definition has_comma (s : string) : bool :=
  existsb (fun c => is_char c ",") (list_ascii_of_string s).

End StoreSpec.

(** ** Example documents and citations *)
Module StoreExamples.
Import Js Store.

Definition rec_of (k : string) : jsval := JObj [("key", FVal (JStr k))].

(** A new document: no citation block yet, no slides. *)
Definition doc0 : Doc := {| block := []; saves := 0; slides := [] |}.

(** Store keys A, B, C; one slide lists A, the other has no citations. *)
Definition doc_ABC : Doc :=
  {| block := [rec_of "A"; rec_of "B"; rec_of "C"]; saves := 0; slides := [Some "A"; None] |}.

(** Store key A, listed by the only slide. *)
Definition doc_A : Doc := {| block := [rec_of "A"]; saves := 0; slides := [Some "A"] |}.

(** A key with a leading space, and a record with a numeric-looking field. *)
Definition rec_sp : jsval := rec_of " a".

Definition rec12 : jsval :=
  JObj [("key", FVal (JStr "ABCD2345")); ("volume", FVal (JStr "12"))].

Definition rec_smith : jsval :=
  JObj [("key", FVal (JStr "ABCD2345")); ("title", FVal (JStr "Foo"));
        ("creators", FArr [JObj [("creatorType", FVal (JStr "author"));
                                 ("lastName", FVal (JStr "Smith"))]])].

End StoreExamples.

(** ** Example items for the slide rendering *)
Module SlideExamples.
Import Formatter.

Definition alpha : ZoteroItemData :=
  {| key := "A"; creators := []; fields := [("title", "Alpha")] |}.

Definition plain_segment (t : string) : FormattedText :=
  {| text := t; bold := false; italic := false |}.

End SlideExamples.

(** ** Slide-level key management and the high-level functions *)
Module SlideStore.
Import Js Store Slides.

(** [Array.prototype.indexOf] with strict equality: [-1] when absent. *)
Fixpoint index_of_from (l : list string) (k : string) (i : nat) : Z :=
  match l with
  | [] => (-1)%Z
  | x :: r => if String.eqb x k then Z.of_nat i else index_of_from r k (S i)
  end.

Definition index_of (l : list string) (k : string) : Z := index_of_from l k 0.

Fixpoint remove_at {A} (n : nat) (l : list A) : list A :=
  match l, n with
  | [], _ => []
  | _ :: r, O => r
  | x :: r, S n' => x :: remove_at n' r
  end.

(** [l.splice(start, 1)]: a negative start counts from the end. *)
Definition splice_one {A} (l : list A) (start : Z) : list A :=
  let len := Z.of_nat (length l) in
  let actual := if (start <? 0)%Z then Z.max (len + start) 0 else Z.min start len in
  remove_at (Z.to_nat actual) l.

(** [removeCitationFromSlide(citationKey, slide)]: the result and the
    slide's tag afterwards. The store-side [prune()] it then starts is not
    awaited and is left out here. *)
Definition removeCitationFromSlide (citationKey : string) (tag : option string)
  : bool * option string :=
  let citationKeys := getCitationKeysOnSlide tag in
  if negb (includes citationKeys citationKey) then (false, tag)
  else
    let citationKeys' := splice_one citationKeys (index_of citationKeys citationKey) in
    (true, Some (join_on "," citationKeys')).

(** [updateCitationKeysOrder(orderedKeys, slide)]: the slide's tag
    afterwards. *)
Definition updateCitationKeysOrder (orderedKeys : list string) : option string :=
  Some (join_on "," orderedKeys).

(** [store.getItem(key)] on one key. *)
Definition getItem1 (k : string) (d : Doc) : option jsval :=
  map_get (load d) (FVal (JStr k)).

(** [getCitationsOnSlide()] for the current slide's tag: the records found
    for its keys, in order, skipping the keys not found. *)
Definition getCitationsOnSlide (d : Doc) (tag : option string) : list jsval :=
  fold_left (fun citations k =>
               match getItem1 k d with
               | Some citation => if truthy citation then (citations ++ [citation])%list
                                  else citations
               | None => citations
               end)
            (getCitationKeysOnSlide tag) [].

(** The slide list with slide [j]'s tag replaced. *)
Fixpoint set_nth {A} (l : list A) (j : nat) (x : A) : list A :=
  match l, j with
  | [], _ => []
  | _ :: r, O => x :: r
  | y :: r, S j' => y :: set_nth r j' x
  end.

(** [insertCitationOnSlide(citation)] with the current slide [current]:
    [store.add(citation)] then [addCitationKeyToSlide(citation.key)]; the
    caller passes [citation.key], a string by the type [ZoteroItemData]. *)
Definition insertCitationOnSlide (citation : jsval) (citationKey : string)
  (current : nat) (d : Doc) : Doc :=
  let d1 := add citation d in
  {| block := block d1; saves := saves d1;
     slides := set_nth (slides d1) current
                 (addCitationKeyToSlide citationKey (nth current (slides d1) None)) |}.

End SlideStore.

(** ** Spec-side list layout of the rendered segments *)
Module RenderSpec.
Import Formatter.

(** The segments of each citation, the delimiter segment between two
    consecutive ones. *)
Fixpoint intercalate (delim : FormattedText) (gs : list (list FormattedText))
  : list FormattedText :=
  match gs with
  | [] => []
  | [g] => g
  | g :: rest => (g ++ delim :: intercalate delim rest)%list
  end.

Fixpoint indexed {A B} (g : nat -> A -> B) (i : nat) (l : list A) : list B :=
  match l with
  | [] => []
  | c :: r => g i c :: indexed g (S i) r
  end.

End RenderSpec.

(** Whether a lookup found something. *)
Definition is_some {A} (o : option A) : bool :=
  match o with Some _ => true | None => false end.

(** ** Spec-side description of where a pattern occurs *)
Module ReplaceSpec.

(** No occurrence of [pat] starts inside [a] in the string [a ++ t]. *)
Fixpoint absent_in (pat a t : string) : bool :=
  match a with
  | EmptyString => true
  | String c a' => negb (String.prefix pat (String c a' ++ t)) && absent_in pat a' t
  end.

Definition no_char (d : ascii) (s : string) : bool :=
  forallb (fun c => negb (is_char c d)) (list_ascii_of_string s).

End ReplaceSpec.

(** * Proofs *)

(** ** Strings *)
Module StrFacts.

Lemma app_assoc_s (a b c : string) : (a ++ b) ++ c = a ++ (b ++ c).
Proof. induction a as [|x a IH]; simpl; [reflexivity | now rewrite IH]. Qed.

Lemma app_empty_r (a : string) : a ++ EmptyString = a.
Proof. induction a as [|x a IH]; simpl; [reflexivity | now rewrite IH]. Qed.

Lemma length_app_s (a b : string) :
  String.length (a ++ b) = String.length a + String.length b.
Proof. induction a as [|x a IH]; simpl; [reflexivity | now rewrite IH]. Qed.

End StrFacts.

(** ** The inline-markup parser *)
Module ParserFacts.
Import Formatter FormatterSpec.

Lemma is_char_true c d : is_char c d = true -> c = d.
Proof. unfold is_char. apply Ascii.eqb_eq. Qed.

Ltac chars :=
  repeat match goal with
  | H : is_char _ _ = true |- _ => apply is_char_true in H; subst
  end.

Lemma tag_at_cases s cl t r :
  tag_at s = Some (cl, t, r) ->
  (t = "b"%char \/ t = "i"%char) /\
  ((cl = false /\ s = String "<" (String t (String ">" r))) \/
   (cl = true /\ s = String "<" (String "/" (String t (String ">" r))))).
Proof.
  intros H. unfold tag_at in H.
  destruct s as [|c1 [|c2 [|c3 r0]]]; try discriminate.
  destruct (is_char c1 "<") eqn:E1, (is_char c2 "b") eqn:E2, (is_char c2 "i") eqn:E3,
           (is_char c3 ">") eqn:E4; simpl in H;
  try (injection H as <- <- <-);
  try (destruct r0 as [|c4 r']; [discriminate|]);
  try (destruct (is_char c2 "/") eqn:E5, (is_char c3 "b") eqn:E6, (is_char c3 "i") eqn:E7,
         (is_char c4 ">") eqn:E8; simpl in H; try discriminate; injection H as <- <- <-);
  chars; try discriminate;
  (split; [ first [left; reflexivity | right; reflexivity] |
            first [left; split; reflexivity | right; split; reflexivity] ]).
Qed.

Lemma exec_eq s :
  exec s =
  match tag_at s with
  | Some (cl, t, r) => Some (EmptyString, (cl, t), r)
  | None =>
      match s with
      | EmptyString => None
      | String c s' =>
          match exec s' with
          | Some (pre, m, r) => Some (String c pre, m, r)
          | None => None
          end
      end
  end.
Proof. destruct s; reflexivity. Qed.

Ltac split_chars :=
  repeat match goal with
  | |- context [is_char ?a ?b] =>
      let E := fresh "E" in destruct (is_char a b) eqn:E
  end.

Lemma styled_chars_cons c r b i :
  styled_chars (String c r) b i =
  let other := (c, b, i) :: styled_chars r b i in
  match r with
  | String c2 (String c3 r3) =>
      if is_char c "<" && is_char c2 "b" && is_char c3 ">" then styled_chars r3 true i
      else if is_char c "<" && is_char c2 "i" && is_char c3 ">" then styled_chars r3 b true
      else match r3 with
           | String c4 r4 =>
               if is_char c "<" && is_char c2 "/" && is_char c3 "b" && is_char c4 ">"
               then styled_chars r4 false i
               else if is_char c "<" && is_char c2 "/" && is_char c3 "i" && is_char c4 ">"
               then styled_chars r4 b false
               else other
           | EmptyString => other
           end
  | _ => other
  end.
Proof. reflexivity. Qed.

Lemma strip_tags_cons c r :
  strip_tags (String c r) =
  let other := String c (strip_tags r) in
  match r with
  | String c2 (String c3 r3) =>
      if is_char c "<" && (is_char c2 "b" || is_char c2 "i") && is_char c3 ">"
      then strip_tags r3
      else match r3 with
           | String c4 r4 =>
               if is_char c "<" && is_char c2 "/" && (is_char c3 "b" || is_char c3 "i")
                  && is_char c4 ">"
               then strip_tags r4
               else other
           | EmptyString => other
           end
  | _ => other
  end.
Proof. reflexivity. Qed.

Lemma styled_notag c s b i :
  tag_at (String c s) = None ->
  styled_chars (String c s) b i = (c, b, i) :: styled_chars s b i.
Proof.
  intros H. rewrite styled_chars_cons. unfold tag_at in H.
  destruct s as [|c2 [|c3 r0]]; try reflexivity.
  destruct r0 as [|c4 r4]; revert H; split_chars;
  cbn beta iota zeta delta [andb orb]; intros H; try discriminate; reflexivity.
Qed.

Lemma strip_notag c s :
  tag_at (String c s) = None -> strip_tags (String c s) = String c (strip_tags s).
Proof.
  intros H. rewrite strip_tags_cons. unfold tag_at in H.
  destruct s as [|c2 [|c3 r0]]; try reflexivity.
  destruct r0 as [|c4 r4]; revert H; split_chars;
  cbn beta iota zeta delta [andb orb]; intros H; try discriminate; reflexivity.
Qed.

Definition bold_after (cl : bool) (t : ascii) (b : bool) : bool :=
  if is_char t "b" then negb cl else b.

Definition italic_after (cl : bool) (t : ascii) (i : bool) : bool :=
  if is_char t "b" then i else if is_char t "i" then negb cl else i.

Lemma styled_tag s cl t r b i :
  tag_at s = Some (cl, t, r) ->
  styled_chars s b i = styled_chars r (bold_after cl t b) (italic_after cl t i).
Proof.
  intros H. apply tag_at_cases in H as [[-> | ->] [[-> ->] | [-> ->]]];
  reflexivity.
Qed.

Lemma strip_tag s cl t r :
  tag_at s = Some (cl, t, r) -> strip_tags s = strip_tags r.
Proof.
  intros H. apply tag_at_cases in H as [[-> | ->] [[-> ->] | [-> ->]]];
  reflexivity.
Qed.

Lemma exec_styled s : forall pre cl t r b i,
  exec s = Some (pre, (cl, t), r) ->
  styled_chars s b i =
  (chars_with pre b i ++ styled_chars r (bold_after cl t b) (italic_after cl t i))%list.
Proof.
  induction s as [|c s IH]; intros pre cl t r b i H; rewrite exec_eq in H.
  - discriminate.
  - destruct (tag_at (String c s)) as [[[cl' t'] r']|] eqn:T.
    + injection H as <- <- <- <-. apply styled_tag. exact T.
    + destruct (exec s) as [[[pre' [cl' t']] r']|] eqn:X; [|discriminate].
      injection H as <- <- <- <-.
      rewrite styled_notag by exact T. rewrite (IH pre' cl' t' r' b i eq_refl). reflexivity.
Qed.

Lemma exec_none_styled s b i :
  exec s = None -> styled_chars s b i = chars_with s b i.
Proof.
  induction s as [|c s IH]; intros H; rewrite exec_eq in H; [reflexivity|].
  destruct (tag_at (String c s)) as [[[cl' t'] r']|] eqn:T; [discriminate|].
  destruct (exec s) as [[[pre' m] r']|]; [discriminate|].
  rewrite styled_notag by exact T. rewrite IH by reflexivity. reflexivity.
Qed.

Lemma exec_strip s : forall pre m r,
  exec s = Some (pre, m, r) -> strip_tags s = pre ++ strip_tags r.
Proof.
  induction s as [|c s IH]; intros pre m r H; rewrite exec_eq in H.
  - discriminate.
  - destruct (tag_at (String c s)) as [[[cl' t'] r']|] eqn:T.
    + injection H as <- <- <-. apply (strip_tag _ _ _ _ T).
    + destruct (exec s) as [[[pre' m'] r']|] eqn:X; [|discriminate].
      injection H as <- <- <-.
      rewrite strip_notag by exact T. rewrite (IH pre' m' r' eq_refl). reflexivity.
Qed.

Lemma exec_none_strip s : exec s = None -> strip_tags s = s.
Proof.
  induction s as [|c s IH]; intros H; rewrite exec_eq in H; [reflexivity|].
  destruct (tag_at (String c s)) as [[[cl' t'] r']|] eqn:T; [discriminate|].
  destruct (exec s) as [[[pre' m] r']|]; [discriminate|].
  rewrite strip_notag by exact T. rewrite IH by reflexivity. reflexivity.
Qed.

Lemma exec_shorter s : forall pre m r,
  exec s = Some (pre, m, r) -> String.length r < String.length s.
Proof.
  induction s as [|c s IH]; intros pre m r H; rewrite exec_eq in H.
  - discriminate.
  - destruct (tag_at (String c s)) as [[[cl' t'] r']|] eqn:T.
    + injection H as <- <- <-.
      apply tag_at_cases in T as [_ [[_ E] | [_ E]]]; rewrite E; simpl; lia.
    + destruct (exec s) as [[[pre' m'] r']|] eqn:X; [|discriminate].
      injection H as <- <- <-. specialize (IH _ _ _ eq_refl). simpl. lia.
Qed.

Lemma flat_app l1 l2 :
  flat_segments (l1 ++ l2)%list = (flat_segments l1 ++ flat_segments l2)%list.
Proof. unfold flat_segments. rewrite map_app, concat_app. reflexivity. Qed.

Lemma flat_push s b i : flat_segments (push_text s b i) = chars_with s b i.
Proof.
  unfold push_text. destruct (String.eqb_spec s "") as [->|_]; [reflexivity|].
  unfold flat_segments. simpl. rewrite app_nil_r. reflexivity.
Qed.

Lemma concat_text_app l1 l2 : concat_text (l1 ++ l2)%list = concat_text l1 ++ concat_text l2.
Proof.
  induction l1 as [|x l1 IH]; simpl; [reflexivity|].
  rewrite IH, StrFacts.app_assoc_s. reflexivity.
Qed.

Lemma concat_push s b i : concat_text (push_text s b i) = s.
Proof.
  unfold push_text. destruct (String.eqb_spec s "") as [->|_]; [reflexivity|].
  simpl. apply StrFacts.app_empty_r.
Qed.

Lemma push_nonempty s b i : Forall (fun x => text x <> EmptyString) (push_text s b i).
Proof.
  unfold push_text. destruct (String.eqb_spec s "") as [_|NE]; constructor; auto.
Qed.

(** The loop, with enough fuel, yields the per-character toggle styling. *)
Lemma parse_loop_styled fuel : forall s b i,
  String.length s < fuel ->
  flat_segments (parse_loop fuel s b i) = styled_chars s b i.
Proof.
  induction fuel as [|f IH]; intros s b i L; [lia|].
  simpl parse_loop.
  destruct (exec s) as [[[pre [cl t]] r]|] eqn:X.
  - rewrite flat_app, flat_push, (exec_styled s pre cl t r b i X).
    f_equal. apply IH. apply exec_shorter in X. lia.
  - rewrite flat_push. symmetry. apply exec_none_styled. exact X.
Qed.

Lemma parse_loop_text fuel : forall s b i,
  String.length s < fuel -> concat_text (parse_loop fuel s b i) = strip_tags s.
Proof.
  induction fuel as [|f IH]; intros s b i L; [lia|].
  simpl parse_loop.
  destruct (exec s) as [[[pre [cl t]] r]|] eqn:X.
  - rewrite concat_text_app, concat_push, (exec_strip s pre (cl, t) r X).
    f_equal. apply IH. apply exec_shorter in X. lia.
  - rewrite concat_push. symmetry. apply exec_none_strip. exact X.
Qed.

Lemma parse_loop_nonempty fuel : forall s b i,
  Forall (fun x => text x <> EmptyString) (parse_loop fuel s b i).
Proof.
  induction fuel as [|f IH]; intros s b i; simpl; [apply push_nonempty|].
  destruct (exec s) as [[[pre [cl t]] r]|]; [|apply push_nonempty].
  apply Forall_app; split; [apply push_nonempty | apply IH].
Qed.

End ParserFacts.

(** ** Claims about the formatter *)
Module FormatterClaims.
Import Formatter FormatterSpec ParserFacts.

(** C1 (code_bug). The doc comment of [getCreator] and the spec give
    2 creators as ["Smith and Doe"] and 1 creator as the single name; the
    code's branch for length 1 reads [creators[1]] (undefined, so it throws)
    and the length-2 list takes the ["et al."] branch. *)
Theorem getCreator_off_by_one :
  let smith := {| creatorType := "author"; firstName := None;
                  lastName := Some "Smith"; name := None |} in
  let doe := {| creatorType := "author"; firstName := None;
                lastName := Some "Doe"; name := None |} in
  getCreator [smith; doe] "Unknown" = Ok "Smith et al." /\
  creator_label_spec [smith; doe] "Unknown" = "Smith and Doe" /\
  (exists m, getCreator [smith] "Unknown" = Throw m) /\
  creator_label_spec [smith] "Unknown" = "Smith".
Proof.
  cbv zeta. split; [reflexivity|]. split; [reflexivity|].
  split; [eexists; reflexivity | reflexivity].
Qed.

(** C8. [parseFormattedText] gives every character outside the tags the
    styles set by toggle semantics (an opening tag turns its style on until
    the matching closing tag, bold and italic independently), in order and
    with the tags stripped; and the template ["<b>{title}</b>, {year}"] on a
    record with title ["Foo"] and date ["2020-01-01"] yields exactly the
    segments ["Foo"] (bold) and [", 2020"] (plain). *)
Theorem parse_toggle_semantics :
  (forall s, flat_segments (parseFormattedText s) = styled_chars s false false) /\
  (forall k lookup index startIndex,
     format "<b>{title}</b>, {year}" lookup
       {| key := k; creators := [];
          fields := [("title", "Foo"); ("date", "2020-01-01")] |} index startIndex =
     Ok [{| text := "Foo"; bold := true; italic := false |};
         {| text := ", 2020"; bold := false; italic := false |}]).
Proof.
  split.
  - intros s. apply parse_loop_styled. lia.
  - intros k lookup index startIndex. reflexivity.
Qed.

(** C10. Concatenating the texts of the parsed segments gives the input
    with every [<b>], [</b>], [<i>], [</i>] token removed, and no segment
    has empty text. *)
Theorem parse_preserves_text :
  forall s,
    concat_text (parseFormattedText s) = strip_tags s /\
    Forall (fun x => text x <> EmptyString) (parseFormattedText s).
Proof.
  intros s. split.
  - apply parse_loop_text. lia.
  - apply parse_loop_nonempty.
Qed.

End FormatterClaims.

(** ** Facts about [trim] and the text read back *)
(** ** Facts about the number reader *)
Module NumFacts.
Import Js.

Definition sgn (neg : bool) : list ascii := if neg then ["-"%char] else [].

Definition canon (ds : list ascii) : Prop :=
  forallb is_digit ds = true
  /\ (exists c r, ds = c :: r /\ is_char c "0" = false)
  /\ (exists p c, ds = (p ++ [c])%list /\ is_char c "0" = false).

Lemma split_dot_nodot l :
  forallb (fun c => negb (is_char c ".")) l = true -> split_dot l = (l, None).
Proof.
  induction l as [|c l IH]; [reflexivity|]. simpl. intros H.
  apply andb_prop in H as [Hc Hl]. apply negb_true_iff in Hc. rewrite Hc, (IH Hl). reflexivity.
Qed.

Lemma split_dot_at p q :
  forallb (fun c => negb (is_char c ".")) p = true -> split_dot (p ++ "."%char :: q) = (p, Some q).
Proof.
  induction p as [|c p IH]; [reflexivity|]. simpl. intros H.
  apply andb_prop in H as [Hc Hp]. apply negb_true_iff in Hc. rewrite Hc, (IH Hp). reflexivity.
Qed.

Lemma split_dot_none l ip : split_dot l = (ip, None) -> l = ip.
Proof.
  revert ip. induction l as [|c l IH]; intros ip H; simpl in H.
  - now injection H as <-.
  - destruct (is_char c "."); [discriminate|]. destruct (split_dot l) as [a b] eqn:E.
    injection H as <- ->. now rewrite (IH a eq_refl).
Qed.

Lemma split_dot_some l ip fp : split_dot l = (ip, Some fp) -> l = (ip ++ "."%char :: fp)%list.
Proof.
  revert ip. induction l as [|c l IH]; intros ip H; simpl in H; [discriminate|].
  destruct (is_char c ".") eqn:D.
  - injection H as <- ->. apply Ascii.eqb_eq in D. now subst.
  - destruct (split_dot l) as [a b] eqn:E. injection H as <- ->.
    now rewrite (IH a eq_refl).
Qed.

Lemma digit_nodot l : forallb is_digit l = true -> forallb (fun c => negb (is_char c ".")) l = true.
Proof.
  induction l as [|c l IH]; [reflexivity|]. simpl. intros H.
  apply andb_prop in H as [Hc Hl]. rewrite (IH Hl), andb_true_r.
  destruct c as [[] [] [] [] [] [] [] []]; try reflexivity; discriminate.
Qed.

Lemma forallb_repeat (f : ascii -> bool) c j : f c = true -> forallb f (repeat c j) = true.
Proof. intros H. induction j as [|j IH]; simpl; [reflexivity|]. now rewrite H, IH. Qed.

Lemma drop0_nz c r : is_char c "0" = false -> drop0 (c :: r) = c :: r.
Proof. intros H. simpl. now rewrite H. Qed.

Lemma drop0_zeros j l : drop0 (repeat "0"%char j ++ l) = drop0 l.
Proof. induction j as [|j IH]; [reflexivity|]. exact IH. Qed.

Lemma drop0_cases l : drop0 l = [] \/ exists c r, drop0 l = c :: r /\ is_char c "0" = false.
Proof.
  induction l as [|c l IH]; [now left|]. simpl.
  destruct (is_char c "0") eqn:E; [exact IH | right; eauto].
Qed.

Lemma drop0_suffix l : exists p, l = (p ++ drop0 l)%list.
Proof.
  induction l as [|c l [p IH]]; [now exists []|]. simpl.
  destruct (is_char c "0"); [exists (c :: p); simpl; now rewrite <- IH | now exists []].
Qed.

Lemma rstrip0_prefix l : exists j, l = (rstrip0 l ++ repeat "0"%char j)%list.
Proof.
  induction l as [|c l [j IH]]; [now exists 0|]. simpl.
  destruct (rstrip0 l) as [|a r] eqn:E.
  - simpl in IH. destruct (is_char c "0") eqn:Z.
    + apply Ascii.eqb_eq in Z. rewrite Z. exists (S j). simpl. now rewrite IH at 1.
    + exists j. simpl. now rewrite IH at 1.
  - exists j. simpl. now rewrite IH at 1.
Qed.

Lemma rstrip0_cons_ne c l : rstrip0 l <> [] -> rstrip0 (c :: l) = c :: rstrip0 l.
Proof. intros H. simpl. destruct (rstrip0 l); [contradiction | reflexivity]. Qed.

Lemma rstrip0_last l :
  rstrip0 l = [] \/ exists p c, rstrip0 l = (p ++ [c])%list /\ is_char c "0" = false.
Proof.
  induction l as [|c l IH]; [now left|]. simpl.
  destruct IH as [E | [p [d [E N]]]]; rewrite E.
  - destruct (is_char c "0") eqn:Z; [now left | right; now exists [], c].
  - right. exists (c :: p), d. split; [|exact N]. destruct p; reflexivity.
Qed.

Lemma rstrip0_all_zeros j : rstrip0 (repeat "0"%char j) = [].
Proof. induction j as [|j IH]; [reflexivity|]. simpl. now rewrite IH. Qed.

Lemma rstrip0_zeros ds j :
  (exists p c, ds = (p ++ [c])%list /\ is_char c "0" = false) ->
  rstrip0 (ds ++ repeat "0"%char j) = ds.
Proof.
  intros [p [c [-> N]]]. induction p as [|a p IH].
  - simpl. rewrite rstrip0_all_zeros. now rewrite N.
  - simpl. rewrite IH. destruct p; reflexivity.
Qed.

Lemma rstrip0_sub l : forallb is_digit l = true -> forallb is_digit (rstrip0 l) = true.
Proof.
  destruct (rstrip0_prefix l) as [j E]. intros H. rewrite E in H.
  rewrite forallb_app in H. now apply andb_prop in H as [H _].
Qed.

Lemma rstrip0_head c r : is_char c "0" = false -> exists r', rstrip0 (c :: r) = c :: r'.
Proof.
  intros N. simpl. destruct (rstrip0 r) as [|a r']; [rewrite N|]; eauto.
Qed.

(** The shape of a number [dec_number] produces. *)
Lemma dec_number_shape neg ip fp n :
  dec_number neg ip fp = Some n ->
  n = ["0"%char] \/ exists ds m, canon ds /\ accepts ds m = true /\ n = (sgn neg ++ fmt_digits ds m)%list.
Proof.
  unfold dec_number. set (D := (ip ++ fp)%list).
  destruct (is_nil D || negb (forallb is_digit D)) eqn:B; [discriminate|].
  apply orb_false_iff in B as [_ Dg]. apply negb_false_iff in Dg.
  destruct (drop0_suffix D) as [pre Epre].
  assert (Dg0 : forallb is_digit (drop0 D) = true).
  { rewrite Epre, forallb_app in Dg. now apply andb_prop in Dg as [_ Dg]. }
  destruct (rstrip0 (drop0 D)) as [|c r] eqn:R.
  - intros H. injection H as <-. now left.
  - set (m := (Z.of_nat (length (drop0 D)) - Z.of_nat (length fp))%Z).
    destruct (accepts (c :: r) m) eqn:A; [|discriminate]. intros H. injection H as <-.
    right. exists (c :: r), m. split; [|split; [exact A | reflexivity]].
    split; [rewrite <- R; now apply rstrip0_sub|]. split.
    + exists c, r. split; [reflexivity|].
      destruct (drop0_cases D) as [E | [c' [r' [E N]]]]; rewrite E in R; [discriminate|].
      destruct (rstrip0_head c' r' N) as [r'' Er]. rewrite Er in R. injection R as <- _. exact N.
    + destruct (rstrip0_last (drop0 D)) as [E | [p [d [E N]]]]; rewrite R in E; [discriminate|].
      exists p, d. now split.
Qed.

Lemma canon_nodot ds : canon ds -> forallb (fun c => negb (is_char c ".")) ds = true.
Proof. intros [D _]. now apply digit_nodot. Qed.

Lemma dec_canon_int neg ds j :
  canon ds -> dec_number neg (ds ++ repeat "0"%char j) []
  = let m := (Z.of_nat (length ds) + Z.of_nat j)%Z in
    if accepts ds m then Some (sgn neg ++ fmt_digits ds m)%list else None.
Proof.
  intros Cn. pose proof Cn as [Dg [[c [r [Ec Nc]]] L]].
  unfold dec_number. rewrite app_nil_r.
  assert (Dg' : forallb is_digit (ds ++ repeat "0"%char j) = true).
  { rewrite forallb_app, Dg. simpl. now apply forallb_repeat. }
  rewrite Dg'. subst ds. cbn [app is_nil orb negb].
  rewrite drop0_nz by exact Nc. rewrite app_comm_cons, rstrip0_zeros by exact L.
  cbn [length]. rewrite length_app, repeat_length, Nat2Z.inj_add. simpl (Z.of_nat 0).
  rewrite Z.sub_0_r. reflexivity.
Qed.

Lemma num_chars_dec t neg r :
  split_sign t = (neg, r) ->
  (forall z x h, r = z :: x :: h -> is_char z "0" && is_char x "x" = false) ->
  num_chars t = dec_part neg r.
Proof.
  intros S H. unfold num_chars. rewrite S.
  destruct r as [|z [|x h]]; try reflexivity. now rewrite (H z x h eq_refl).
Qed.

Lemma fmt_first ds m :
  canon ds -> exists c r, fmt_digits ds m = c :: r /\ is_digit c = true
                          /\ (is_char c "0" = true -> r = "."%char :: skipn 1 r).
Proof.
  intros [Dg [[c [r [Ec Nc]]] _]]. subst ds. simpl in Dg. apply andb_prop in Dg as [Dc _].
  unfold fmt_digits.
  destruct (Z.of_nat (length (c :: r)) <=? m)%Z.
  - eexists c, _. split; [reflexivity|]. split; [exact Dc|]. now rewrite Nc.
  - destruct (0 <? m)%Z eqn:P.
    + destruct (Z.to_nat m) as [|m'] eqn:Em; [lia|].
      eexists c, _. split; [reflexivity|]. split; [exact Dc|]. now rewrite Nc.
    + eexists "0"%char, _. split; [reflexivity|]. split; reflexivity.
Qed.

Lemma forallb_firstn (f : ascii -> bool) n l : forallb f l = true -> forallb f (firstn n l) = true.
Proof.
  intros H. rewrite <- (firstn_skipn n l), forallb_app in H. now apply andb_prop in H as [H _].
Qed.

Lemma canon_strip ds : canon ds -> drop0 ds = ds /\ rstrip0 ds = ds.
Proof.
  intros [_ [[c [r [-> Nc]]] L]]. split; [now apply drop0_nz|].
  rewrite <- (app_nil_r (c :: r)) at 1. change (@nil ascii) with (repeat "0"%char 0).
  now apply rstrip0_zeros.
Qed.

Lemma sign_of_fmt neg ds m :
  canon ds -> split_sign (sgn neg ++ fmt_digits ds m)%list = (neg, fmt_digits ds m).
Proof.
  intros Cn. destruct neg; [reflexivity|].
  destruct (fmt_first ds m Cn) as [c [r [E [Dc _]]]]. simpl. rewrite E. simpl.
  destruct c as [[] [] [] [] [] [] [] []]; try reflexivity; discriminate.
Qed.

Lemma fmt_not_hex ds m :
  canon ds -> forall z x h, fmt_digits ds m = z :: x :: h -> is_char z "0" && is_char x "x" = false.
Proof.
  intros Cn z x h E. destruct (fmt_first ds m Cn) as [c [r [E' [_ Z]]]].
  rewrite E' in E. injection E as <- Er.
  destruct (is_char c "0") eqn:Zc; [|reflexivity].
  specialize (Z eq_refl). rewrite Er in Z. injection Z as ->. reflexivity.
Qed.

Lemma canon_reparse neg ds m :
  canon ds -> accepts ds m = true ->
  num_chars (sgn neg ++ fmt_digits ds m)%list = Some (sgn neg ++ fmt_digits ds m)%list.
Proof.
  intros Cn A.
  rewrite (num_chars_dec _ neg (fmt_digits ds m) (sign_of_fmt neg ds m Cn) (fmt_not_hex ds m Cn)).
  pose proof Cn as [Dg [[c [r [Ec Nc]]] L]].
  destruct (canon_strip ds Cn) as [D0 R0].
  unfold fmt_digits at 1.
  destruct (Z.of_nat (length ds) <=? m)%Z eqn:K.
  - (* integer: the digits and trailing zeros *)
    unfold dec_part. rewrite split_dot_nodot.
    + rewrite (dec_canon_int neg ds _ Cn). cbv zeta.
      replace (Z.of_nat (length ds) + Z.of_nat (Z.to_nat (m - Z.of_nat (length ds))))%Z with m by lia.
      rewrite A. unfold fmt_digits. now rewrite K.
    + rewrite forallb_app. rewrite (canon_nodot ds Cn). simpl. now apply forallb_repeat.
  - destruct (0 <? m)%Z eqn:P.
    + (* a point inside the digits *)
      unfold dec_part. rewrite split_dot_at by (apply forallb_firstn, canon_nodot, Cn).
      assert (Ls : length (skipn (Z.to_nat m) ds) = length ds - Z.to_nat m) by apply length_skipn.
      destruct (skipn (Z.to_nat m) ds) as [|s0 sr] eqn:Sk; [simpl in Ls; lia|].
      cbn [is_nil]. unfold dec_number. rewrite <- Sk, firstn_skipn.
      rewrite Dg. cbv zeta. rewrite D0, R0. subst ds. cbn [is_nil orb negb].
      rewrite length_skipn. replace (Z.of_nat (length (c :: r)) - Z.of_nat (length (c :: r) - Z.to_nat m))%Z with m by lia.
      rewrite A. unfold fmt_digits. now rewrite K, P, Sk.
    + (* "0." and leading zeros *)
      unfold dec_part. simpl split_dot. subst ds.
      destruct (repeat "0"%char (Z.to_nat (- m)) ++ c :: r)%list as [|a l] eqn:Z0;
        [destruct (Z.to_nat (- m)); discriminate|].
      cbn [is_nil]. unfold dec_number. rewrite <- Z0.
      assert (Dg' : forallb is_digit ("0"%char :: repeat "0"%char (Z.to_nat (- m)) ++ c :: r)%list = true).
      { simpl. rewrite forallb_app, forallb_repeat by reflexivity. exact Dg. }
      cbn [app] in Dg' |- *. rewrite Dg'. cbv zeta. cbn [is_nil orb negb].
      change (drop0 (repeat "0"%char (S (Z.to_nat (- m))) ++ c :: r)) with
             (drop0 ("0"%char :: repeat "0"%char (Z.to_nat (- m)) ++ c :: r))%list.
      change ("0"%char :: repeat "0"%char (Z.to_nat (- m)) ++ c :: r)%list
        with (repeat "0"%char (S (Z.to_nat (- m))) ++ c :: r)%list.
      rewrite drop0_zeros, D0, R0.
      rewrite length_app, repeat_length.
      replace (Z.of_nat (length (c :: r)) - Z.of_nat (Z.to_nat (- m) + length (c :: r)))%Z with m by lia.
      rewrite A. unfold fmt_digits. now rewrite K, P.
Qed.

(** A number read back is read back as itself. *)
Lemma num_chars_again t n : num_chars t = Some n -> num_chars n = Some n.
Proof.
  assert (Dn : forall neg ip fp, dec_number neg ip fp = Some n -> num_chars n = Some n).
  { intros neg ip fp H. destruct (dec_number_shape neg ip fp n H) as [-> | [ds [m [Cn [A ->]]]]];
      [reflexivity | now apply canon_reparse]. }
  assert (Dp : forall neg r, dec_part neg r = Some n -> num_chars n = Some n).
  { intros neg r. unfold dec_part. destruct (split_dot r) as [ip [fp|]];
      [destruct (is_nil fp); [discriminate|] |]; apply Dn. }
  unfold num_chars. destruct (split_sign t) as [neg r].
  destruct r as [|z [|x h]]; try apply Dp.
  destruct (is_char z "0" && is_char x "x"); [|apply Dp].
  destruct (negb (is_nil h) && forallb is_hex h); [apply Dn | discriminate].
Qed.

Definition out_char (c : ascii) : bool := is_digit c || is_char c "-" || is_char c ".".

Lemma fmt_out ds m : canon ds -> forallb out_char (fmt_digits ds m) = true.
Proof.
  intros [Dg _].
  assert (Dd : forallb out_char ds = true).
  { clear -Dg. induction ds as [|c l IH]; [reflexivity|]. simpl in *.
    apply andb_prop in Dg as [Dc Dl]. unfold out_char at 1. rewrite Dc. simpl. now apply IH. }
  unfold fmt_digits.
  destruct (Z.of_nat (length ds) <=? m)%Z; [|destruct (0 <? m)%Z].
  - rewrite forallb_app, Dd. simpl. now apply forallb_repeat.
  - rewrite <- (firstn_skipn (Z.to_nat m) ds), forallb_app in Dd.
    apply andb_prop in Dd as [D1 D2].
    rewrite forallb_app, D1. simpl. exact D2.
  - simpl. rewrite forallb_app, Dd, andb_true_r. now apply forallb_repeat.
Qed.

(** What a number read back is made of. *)
Lemma num_chars_out t n : num_chars t = Some n -> forallb out_char n = true /\ n <> [].
Proof.
  assert (Dn : forall neg ip fp, dec_number neg ip fp = Some n -> forallb out_char n = true /\ n <> []).
  { intros neg ip fp H. destruct (dec_number_shape neg ip fp n H) as [-> | [ds [m [Cn [A ->]]]]];
      [split; [reflexivity | discriminate]|].
    split.
    - rewrite forallb_app. rewrite (fmt_out ds m Cn), andb_true_r. now destruct neg.
    - destruct (fmt_first ds m Cn) as [c [r [E _]]]. rewrite E. destruct neg; discriminate. }
  assert (Dp : forall neg r, dec_part neg r = Some n -> forallb out_char n = true /\ n <> []).
  { intros neg r. unfold dec_part. destruct (split_dot r) as [ip [fp|]];
      [destruct (is_nil fp); [discriminate|] |]; apply Dn. }
  unfold num_chars. destruct (split_sign t) as [neg r].
  destruct r as [|z [|x h]]; try apply Dp.
  destruct (is_char z "0" && is_char x "x"); [|apply Dp].
  destruct (negb (is_nil h) && forallb is_hex h); [apply Dn | discriminate].
Qed.

Definition num_char (c : ascii) : bool :=
  is_hex c || is_char c "-" || is_char c "+" || is_char c "." || is_char c "x".

Lemma dec_number_digits neg ip fp n :
  dec_number neg ip fp = Some n -> forallb is_digit (ip ++ fp)%list = true /\ (ip ++ fp)%list <> [].
Proof.
  unfold dec_number. destruct (is_nil (ip ++ fp)%list || negb (forallb is_digit (ip ++ fp)%list)) eqn:B;
    [discriminate|]. intros _. apply orb_false_iff in B as [B1 B2].
  split; [now apply negb_false_iff|]. now destruct (ip ++ fp)%list.
Qed.

Lemma digit_num_char c : is_digit c = true -> num_char c = true.
Proof. destruct c as [[] [] [] [] [] [] [] []]; vm_compute; congruence. Qed.

Lemma forallb_digit_num l : forallb is_digit l = true -> forallb num_char l = true.
Proof.
  induction l as [|c l IH]; [reflexivity|]. simpl. intros H. apply andb_prop in H as [H1 H2].
  now rewrite (digit_num_char c H1), (IH H2).
Qed.

Lemma dec_part_in neg r n : dec_part neg r = Some n -> forallb num_char r = true.
Proof.
  unfold dec_part. destruct (split_dot r) as [ip [fp|]] eqn:E.
  - destruct (is_nil fp); [discriminate|]. intros H.
    apply dec_number_digits in H as [H _]. rewrite (split_dot_some r ip fp E).
    rewrite forallb_app in H |- *. apply andb_prop in H as [H1 H2].
    rewrite (forallb_digit_num ip H1). simpl. now apply forallb_digit_num.
  - intros H. apply dec_number_digits in H as [H _]. rewrite app_nil_r in H.
    rewrite (split_dot_none r ip E). now apply forallb_digit_num.
Qed.

Lemma hex_num_char c : is_hex c = true -> num_char c = true.
Proof. unfold num_char. intros ->. reflexivity. Qed.

(** Text read as a number is made of signs, digits, points and [x]. *)
Lemma num_chars_in t n : num_chars t = Some n -> forallb num_char t = true.
Proof.
  unfold num_chars. destruct (split_sign t) as [neg r] eqn:S.
  assert (St : forallb num_char r = true -> forallb num_char t = true).
  { unfold split_sign in S. destruct t as [|c t]; [now injection S as _ <-|].
    destruct (is_char c "-") eqn:M; [injection S as _ <-; simpl; intros ->; unfold num_char; now rewrite M, !orb_true_r|].
    destruct (is_char c "+") eqn:P; [injection S as _ <-; simpl; intros ->; unfold num_char; now rewrite P, !orb_true_r|].
    now injection S as _ <-. }
  intros H. apply St. clear St S.
  destruct r as [|z [|x h]]; try (now apply (dec_part_in neg _ n)).
  destruct (is_char z "0" && is_char x "x") eqn:Zx; [|now apply (dec_part_in neg _ n)].
  destruct (negb (is_nil h) && forallb is_hex h) eqn:Hh; [|discriminate].
  apply andb_prop in Zx as [Z X]. apply andb_prop in Hh as [_ Hh].
  apply Ascii.eqb_eq in Z. apply Ascii.eqb_eq in X. subst z x.
  change (forallb num_char h = true).
  clear -Hh. induction h as [|c h IH]; [reflexivity|]. simpl in *.
  apply andb_prop in Hh as [H1 H2]. now rewrite hex_num_char, IH.
Qed.

Definition num_start (c : ascii) : bool :=
  is_digit c || is_char c "+" || is_char c "-" || is_char c ".".

Lemma dec_part_head neg r n : dec_part neg r = Some n -> exists c r', r = c :: r' /\ num_start c = true.
Proof.
  unfold dec_part. destruct (split_dot r) as [ip [fp|]] eqn:E.
  - destruct (is_nil fp); [discriminate|]. intros H. rewrite (split_dot_some r ip fp E).
    apply dec_number_digits in H as [H _]. destruct ip as [|c ip].
    + exists "."%char, fp. split; reflexivity.
    + exists c, (ip ++ "."%char :: fp)%list. split; [reflexivity|]. simpl in H.
      apply andb_prop in H as [H _]. unfold num_start. now rewrite H.
  - intros H. apply dec_number_digits in H as [H NE]. rewrite app_nil_r in H, NE.
    rewrite (split_dot_none r ip E). destruct ip as [|c ip]; [contradiction|].
    exists c, ip. split; [reflexivity|]. simpl in H.
    apply andb_prop in H as [H _]. unfold num_start. now rewrite H.
Qed.

(** Text read as a number starts with a digit, a sign or a point. *)
Lemma num_chars_head t n : num_chars t = Some n -> exists c r, t = c :: r /\ num_start c = true.
Proof.
  unfold num_chars. destruct (split_sign t) as [neg r] eqn:S.
  assert (St : (exists c r', r = c :: r' /\ num_start c = true) ->
               exists c r', t = c :: r' /\ num_start c = true).
  { unfold split_sign in S. destruct t as [|c t]; [now injection S as _ <-|].
    destruct (is_char c "-") eqn:M;
      [intros _; exists c, t; split; [reflexivity|]; unfold num_start; now rewrite M, !orb_true_r|].
    destruct (is_char c "+") eqn:P;
      [intros _; exists c, t; split; [reflexivity|]; unfold num_start; now rewrite P, orb_true_r|].
    now injection S as _ <-. }
  intros H. apply St. clear St S.
  destruct r as [|z [|x h]]; try (now apply (dec_part_head neg _ n)).
  destruct (is_char z "0" && is_char x "x") eqn:Zx; [|now apply (dec_part_head neg _ n)].
  apply andb_prop in Zx as [Z _]. apply Ascii.eqb_eq in Z. subst z.
  exists "0"%char, (x :: h). split; reflexivity.
Qed.

(** A decimal integer of at most 15 digits without leading zeros reads
    back as itself. *)
Lemma num_chars_int c r :
  forallb is_digit (c :: r) = true -> is_char c "0" = false -> length (c :: r) <= 15 ->
  num_chars (c :: r) = Some (c :: r).
Proof.
  intros Dg Nc Len.
  assert (St : split_sign (c :: r) = (false, c :: r)).
  { simpl. simpl in Dg. apply andb_prop in Dg as [Dc _].
    destruct c as [[] [] [] [] [] [] [] []]; try reflexivity; discriminate. }
  rewrite (num_chars_dec _ false (c :: r) St).
  2:{ intros z x h E. injection E as <- _. now rewrite Nc. }
  unfold dec_part. rewrite split_dot_nodot by (now apply digit_nodot).
  destruct (rstrip0_prefix (c :: r)) as [j Ej].
  destruct (rstrip0_head c r Nc) as [r' Er].
  assert (Cn : canon (c :: r')).
  { split; [|split].
    - rewrite <- Er. now apply rstrip0_sub.
    - now exists c, r'.
    - destruct (rstrip0_last (c :: r)) as [E | [p [d [E N]]]]; rewrite Er in E; [discriminate|].
      now exists p, d. }
  rewrite Ej at 1. rewrite Er. rewrite (dec_canon_int false (c :: r') j Cn). cbv zeta.
  assert (Lr : length (c :: r) = length (c :: r') + j).
  { rewrite Ej at 1. now rewrite Er, length_app, repeat_length. }
  unfold accepts. replace (Z.of_nat (length (c :: r')) <=? Z.of_nat (length (c :: r')) + Z.of_nat j)%Z
    with true by lia.
  replace ((Z.of_nat (length (c :: r')) <=? 15) && (-6 <? Z.of_nat (length (c :: r')) + Z.of_nat j)
           && (Z.of_nat (length (c :: r')) + Z.of_nat j <=? 21))%Z with true by lia.
  rewrite orb_true_r. f_equal. simpl sgn. rewrite app_nil_l. unfold fmt_digits.
  replace (Z.of_nat (length (c :: r')) <=? Z.of_nat (length (c :: r')) + Z.of_nat j)%Z with true by lia.
  replace (Z.to_nat (Z.of_nat (length (c :: r')) + Z.of_nat j - Z.of_nat (length (c :: r')))) with j by lia.
  rewrite <- Er. now rewrite <- Ej.
Qed.

End NumFacts.

Module TrimFacts.
Import Js NumFacts.

Lemma ltrim_length s : String.length (ltrim s) <= String.length s.
Proof.
  induction s as [|c s IH]; simpl; [lia|].
  destruct (is_ws c); simpl; lia.
Qed.

Lemma ltrim_head s :
  ltrim s = EmptyString \/ exists c s', ltrim s = String c s' /\ is_ws c = false.
Proof.
  induction s as [|c s IH]; simpl; [now left|].
  destruct (is_ws c) eqn:W; [exact IH | right; eauto].
Qed.

Lemma ltrim_nonws c s : is_ws c = false -> ltrim (String c s) = String c s.
Proof. intros W; simpl; now rewrite W. Qed.

Lemma rtrim_nonws c s : is_ws c = false -> rtrim (String c s) = String c (rtrim s).
Proof. intros W; simpl; now rewrite W, andb_false_r. Qed.

Lemma rtrim_idem s : rtrim (rtrim s) = rtrim s.
Proof.
  induction s as [|c s IH]; [reflexivity|].
  simpl. destruct (String.eqb (rtrim s) "" && is_ws c) eqn:E; [reflexivity|].
  simpl. rewrite IH, E. reflexivity.
Qed.

Lemma rtrim_app a b : rtrim b <> EmptyString -> rtrim (a ++ b) = a ++ rtrim b.
Proof.
  intros H. induction a as [|c a IH]; [reflexivity|].
  simpl. rewrite IH.
  destruct (String.eqb_spec (a ++ rtrim b) "") as [E|E].
  - exfalso. destruct a; simpl in E; [contradiction | discriminate].
  - reflexivity.
Qed.

(** Strings that [trim] leaves alone. *)
Definition fixed (p : string) : Prop := ltrim p = p /\ rtrim p = p.

Lemma trim_fixed s : fixed (trim s).
Proof.
  unfold fixed, trim.
  destruct (ltrim_head s) as [E | [c [s' [E W]]]]; rewrite E.
  - split; reflexivity.
  - rewrite rtrim_nonws by exact W. split.
    + apply ltrim_nonws, W.
    + rewrite rtrim_nonws by exact W. now rewrite rtrim_idem.
Qed.

Lemma fixed_trim p : fixed p -> trim p = p.
Proof. intros [L R]. unfold trim. now rewrite L, R. Qed.

Lemma trim_idem s : trim (trim s) = trim s.
Proof. apply fixed_trim, trim_fixed. Qed.

Lemma nonws_of_fixed c p : ltrim (String c p) = String c p -> is_ws c = false.
Proof.
  intros H. destruct (is_ws c) eqn:W; [|reflexivity].
  simpl in H. rewrite W in H. pose proof (ltrim_length p) as L.
  rewrite H in L. simpl in L. lia.
Qed.

Lemma ltrim_comma a b : ltrim a = a -> ltrim (a ++ String "," b) = a ++ String "," b.
Proof.
  intros H. destruct a as [|c a']; [reflexivity|].
  apply nonws_of_fixed in H. simpl. now rewrite H.
Qed.

Lemma join_rtrim ps :
  ps <> [] -> Forall fixed ps -> rtrim (join_on "," ps) = join_on "," ps.
Proof.
  induction ps as [|p ps IH]; intros NE F; [contradiction|].
  inversion F as [|? ? [Lp Rp] Fps]; subst.
  destruct ps as [|q qs]; [exact Rp|].
  change (join_on "," (p :: q :: qs)) with (p ++ String "," (join_on "," (q :: qs))).
  rewrite rtrim_app.
  - rewrite rtrim_nonws by reflexivity. rewrite IH; [reflexivity | discriminate | exact Fps].
  - rewrite rtrim_nonws by reflexivity. discriminate.
Qed.

(** A join of two or more trimmed pieces is trimmed and has a comma. *)
Lemma join_two ps :
  2 <= length ps -> Forall fixed ps ->
  fixed (join_on "," ps) /\ exists a b, join_on "," ps = a ++ String "," b.
Proof.
  intros L F. destruct ps as [|p [|q qs]]; simpl in L; try lia.
  inversion F as [|? ? [Lp Rp] Fps]; subst.
  change (join_on "," (p :: q :: qs)) with (p ++ String "," (join_on "," (q :: qs))).
  split; [split|].
  - now apply ltrim_comma.
  - change (p ++ String "," (join_on "," (q :: qs))) with (join_on "," (p :: q :: qs)).
    apply join_rtrim; [discriminate | exact F].
  - eauto.
Qed.

Lemma in_comma a b : In ","%char (list_ascii_of_string (a ++ String "," b)).
Proof. induction a as [|c a IH]; simpl; auto. Qed.

(** Strings without a carriage return, which [eol] leaves alone. *)
Definition cr_free (p : string) : Prop :=
  forallb (fun c => negb (is_char c "013")) (list_ascii_of_string p) = true.

Lemma cr_free_cons c p : cr_free (String c p) <-> is_char c "013" = false /\ cr_free p.
Proof.
  unfold cr_free. simpl. rewrite andb_true_iff, negb_true_iff. reflexivity.
Qed.

Lemma eol_cr_free_len n s : String.length s <= n -> cr_free (eol s).
Proof.
  revert s. induction n as [|n IH]; intros s L.
  - destruct s; [reflexivity | simpl in L; lia].
  - destruct s as [|c s']; [reflexivity|]. simpl in L. simpl eol.
    destruct (is_char c "013") eqn:C.
    + destruct s' as [|d s''].
      * reflexivity.
      * destruct (is_char d "010"); apply cr_free_cons; (split; [reflexivity|]); apply IH;
          simpl in *; lia.
    + apply cr_free_cons. split; [exact C | apply IH; lia].
Qed.

(** No carriage return is left after the line-end normalisation. *)
Lemma eol_cr_free s : cr_free (eol s).
Proof. apply (eol_cr_free_len (String.length s)). lia. Qed.

Lemma eol_id s : cr_free s -> eol s = s.
Proof.
  induction s as [|c s IH]; [reflexivity|]. intros H. apply cr_free_cons in H as [C H].
  simpl. rewrite C. now rewrite IH.
Qed.

Lemma ltrim_cr_free s : cr_free s -> cr_free (ltrim s).
Proof.
  induction s as [|c s IH]; [easy|]. intros H. simpl.
  destruct (is_ws c); [apply IH; now apply cr_free_cons in H as [_ H] | exact H].
Qed.

Lemma rtrim_cr_free s : cr_free s -> cr_free (rtrim s).
Proof.
  induction s as [|c s IH]; [easy|]. intros H. apply cr_free_cons in H as [C H]. simpl.
  destruct (String.eqb (rtrim s) "" && is_ws c); [reflexivity|].
  apply cr_free_cons. split; [exact C | now apply IH].
Qed.

Lemma trim_eol_cr_free s : cr_free (trim (eol s)).
Proof. apply rtrim_cr_free, ltrim_cr_free, eol_cr_free. Qed.

(** Strings without whitespace are trimmed. *)
Lemma no_ws_fixed p : forallb (fun c => negb (is_ws c)) (list_ascii_of_string p) = true -> fixed p.
Proof.
  intros H. split.
  - destruct p as [|c p]; [reflexivity|]. simpl in H. apply andb_prop in H as [W _].
    apply negb_true_iff in W. now apply ltrim_nonws.
  - induction p as [|c p IH]; [reflexivity|]. simpl in H. apply andb_prop in H as [W H].
    apply negb_true_iff in W. rewrite rtrim_nonws by exact W. now rewrite IH.
Qed.

Lemma out_char_ok c : out_char c = true -> is_ws c = false /\ is_char c "013" = false.
Proof. destruct c as [[] [] [] [] [] [] [] []]; vm_compute; intros H; try discriminate; auto. Qed.

Lemma forallb_impl (f g : ascii -> bool) l :
  (forall c, f c = true -> g c = true) -> forallb f l = true -> forallb g l = true.
Proof.
  intros Hfg. induction l as [|c l IH]; [reflexivity|]. simpl. intros H.
  apply andb_prop in H as [H1 H2]. now rewrite (Hfg c H1), (IH H2).
Qed.

(** The [toString] of a number read back: trimmed, without a carriage
    return, not a boolean literal, and read as the same number again. *)
Lemma num_text_out t n :
  num_text t = Some n ->
  fixed n /\ cr_free n /\ n <> "true" /\ n <> "false" /\ num_text n = Some n.
Proof.
  unfold num_text. destruct (num_chars (list_ascii_of_string t)) as [l|] eqn:E; [|discriminate].
  simpl. intros H. injection H as <-.
  destruct (num_chars_out _ l E) as [O _].
  assert (Ol : forallb out_char (list_ascii_of_string (string_of_list_ascii l)) = true)
    by now rewrite list_ascii_of_string_of_list_ascii.
  split; [|split; [|split; [|split]]].
  - apply no_ws_fixed. revert Ol. apply forallb_impl. intros c Hc.
    apply negb_true_iff. now apply out_char_ok.
  - unfold cr_free. revert Ol. apply forallb_impl. intros c Hc.
    apply negb_true_iff. now apply out_char_ok.
  - intros Et. rewrite Et in Ol. discriminate.
  - intros Ef. rewrite Ef in Ol. discriminate.
  - rewrite list_ascii_of_string_of_list_ascii. now rewrite (num_chars_again _ l E).
Qed.

Lemma num_text_comma a b : num_text (a ++ String "," b) = None.
Proof.
  unfold num_text. destruct (num_chars (list_ascii_of_string (a ++ String "," b))) as [l|] eqn:E;
    [|reflexivity].
  apply num_chars_in in E. rewrite forallb_forall in E.
  specialize (E _ (in_comma a b)). discriminate.
Qed.

Lemma xml_text_comma a b :
  fixed (a ++ String "," b) -> cr_free (a ++ String "," b) ->
  xml_text (a ++ String "," b) = JStr (a ++ String "," b).
Proof.
  intros Fx C. unfold xml_text. rewrite eol_id by exact C. rewrite fixed_trim by exact Fx.
  pose proof (in_comma a b) as Hin.
  destruct (String.eqb_spec (a ++ String "," b) "true") as [E|_].
  { rewrite E in Hin. simpl in Hin. intuition discriminate. }
  destruct (String.eqb_spec (a ++ String "," b) "false") as [E|_].
  { rewrite E in Hin. simpl in Hin. intuition discriminate. }
  now rewrite num_text_comma.
Qed.

(** What [xml_text] can return. *)
Lemma xml_text_cases s :
  xml_text s = JBool true \/ xml_text s = JBool false \/
  (exists n, xml_text s = JNum n /\ num_text (trim (eol s)) = Some n) \/
  (xml_text s = JStr (trim (eol s)) /\ num_text (trim (eol s)) = None
   /\ trim (eol s) <> "true" /\ trim (eol s) <> "false").
Proof.
  unfold xml_text.
  destruct (String.eqb_spec (trim (eol s)) "true") as [E|E1]; [now left|].
  destruct (String.eqb_spec (trim (eol s)) "false") as [E|E2]; [now right; left|].
  destruct (num_text (trim (eol s))) as [n|] eqn:N; [right; right; left | right; right; right];
    eauto.
Qed.

(** Text read back once reads back the same. *)
Lemma xml_text_again s t : xml_text s = JStr t -> xml_text t = JStr t.
Proof.
  destruct (xml_text_cases s) as [E|[E|[[n [E _]]|[E [N [T F]]]]]]; rewrite E;
    try discriminate.
  intros H. injection H as <-. unfold xml_text.
  rewrite eol_id by apply trim_eol_cr_free. rewrite trim_idem.
  destruct (String.eqb_spec (trim (eol s)) "true"); [contradiction|].
  destruct (String.eqb_spec (trim (eol s)) "false"); [contradiction|].
  now rewrite N.
Qed.

(** A number read back once reads back as the same number. *)
Lemma xml_num_again s t : xml_text s = JNum t -> xml_text t = JNum t.
Proof.
  destruct (xml_text_cases s) as [E|[E|[[n [E N]]|[E _]]]]; rewrite E;
    try discriminate.
  intros H. injection H as <-.
  destruct (num_text_out _ n N) as [Fx [C [T [F Nn]]]].
  unfold xml_text. rewrite eol_id by exact C. rewrite fixed_trim by exact Fx.
  destruct (String.eqb_spec n "true"); [contradiction|].
  destruct (String.eqb_spec n "false"); [contradiction|].
  now rewrite Nn.
Qed.

(** The text of a value read back is trimmed and has no carriage return. *)
Lemma xml_text_clean s t : xml_text s = JStr t \/ xml_text s = JNum t -> fixed t /\ cr_free t.
Proof.
  destruct (xml_text_cases s) as [E|[E|[[n [E N]]|[E _]]]]; rewrite E;
    intros [H|H]; try discriminate; injection H as <-.
  - now destruct (num_text_out _ n N) as [Fx [C _]].
  - split; [apply trim_fixed | apply trim_eol_cr_free].
Qed.

End TrimFacts.

(** ** Facts about properties and the key read back by the store *)
Module FieldFacts.
Import Js Store TrimFacts.

Lemma get_field_nil n : get_field [] n = None.
Proof. reflexivity. Qed.

Lemma get_field_cons m g rest n :
  get_field ((m, g) :: rest) n = if String.eqb m n then Some g else get_field rest n.
Proof. unfold get_field. simpl. now destruct (String.eqb m n). Qed.

Lemma get_set_same fs n f : get_field fs n <> None -> get_field (set_field fs n f) n = Some f.
Proof.
  induction fs as [|[m g] rest IH]; intros H; [contradiction|].
  simpl. rewrite get_field_cons in H.
  destruct (String.eqb_spec m n) as [->|E].
  - now rewrite get_field_cons, String.eqb_refl.
  - rewrite get_field_cons. apply String.eqb_neq in E. rewrite E. now apply IH.
Qed.

Lemma get_set_other fs m n f : m <> n -> get_field (set_field fs m f) n = get_field fs n.
Proof.
  intros D. induction fs as [|[p g] rest IH].
  - simpl. rewrite get_field_cons. apply String.eqb_neq in D. now rewrite D.
  - simpl. destruct (String.eqb_spec p m) as [->|E].
    + rewrite !get_field_cons. apply String.eqb_neq in D. now rewrite D.
    + rewrite !get_field_cons. now rewrite IH.
Qed.

Lemma get_field_in fs n f : get_field fs n = Some f -> In (n, f) fs.
Proof.
  induction fs as [|[m g] rest IH]; [discriminate|].
  rewrite get_field_cons. destruct (String.eqb_spec m n) as [->|_].
  - intros H; injection H as <-. now left.
  - intros H. right. now apply IH.
Qed.

(** The key after the normalization of [getCitationStoreXml]. *)
Definition norm_key (k : jfield) : jfield :=
  if truthy_f k && negb (is_string_f k) then FVal (JStr (to_string_f k)) else k.

Lemma normalize_key fs :
  exists fs2, normalize (JObj fs) = JObj fs2
              /\ get_field fs2 "key" = option_map norm_key (get_field fs "key").
Proof.
  unfold normalize.
  set (fs1 := match get_field fs "key" with
              | Some k => if truthy_f k && negb (is_string_f k)
                          then set_field fs "key" (FVal (JStr (to_string_f k))) else fs
              | None => fs end).
  assert (H1 : get_field fs1 "key" = option_map norm_key (get_field fs "key")).
  { subst fs1. unfold norm_key. destruct (get_field fs "key") as [k|] eqn:K; simpl; [|exact K].
    destruct (truthy_f k && negb (is_string_f k)); [|exact K].
    apply get_set_same. now rewrite K. }
  eexists; split; [reflexivity|].
  destruct (get_field fs1 "creators") as [[c|vs]|]; try exact H1.
  destruct (truthy c); [|exact H1].
  rewrite get_set_other by discriminate. exact H1.
Qed.

Lemma normalize_not_obj v : (forall fs, v <> JObj fs) -> normalize v = v.
Proof. intros H. destruct v; try reflexivity. now destruct (H fs). Qed.

Notation XF := (xml_fields_with xml_value).

Lemma xml_fields_val m w rest :
  is_defined w = true -> XF ((m, FVal w) :: rest) = (m, FVal (xml_value w)) :: XF rest.
Proof. destruct w; simpl; congruence. Qed.

Lemma xml_fields_shape m g rest :
  XF ((m, g) :: rest) = XF rest \/ exists g', XF ((m, g) :: rest) = (m, g') :: XF rest.
Proof.
  destruct g as [w|ws].
  - destruct w; simpl; eauto.
  - simpl. destruct (xml_elems_with xml_value ws) as [|a [|b l]]; eauto.
Qed.

Lemma xml_get_none fs n : get_field fs n = None -> get_field (XF fs) n = None.
Proof.
  induction fs as [|[m g] rest IH]; [reflexivity|].
  rewrite get_field_cons. destruct (String.eqb m n) eqn:E; [discriminate|].
  intros H. destruct (xml_fields_shape m g rest) as [-> | [g' ->]].
  - now apply IH.
  - rewrite get_field_cons, E. now apply IH.
Qed.

Lemma xml_get_val fs n w :
  get_field fs n = Some (FVal w) -> is_defined w = true ->
  get_field (XF fs) n = Some (FVal (xml_value w)).
Proof.
  induction fs as [|[m g] rest IH]; [discriminate|].
  rewrite get_field_cons. destruct (String.eqb m n) eqn:E.
  - intros H D. injection H as ->. rewrite xml_fields_val by exact D.
    now rewrite get_field_cons, E.
  - intros H D. destruct (xml_fields_shape m g rest) as [-> | [g' ->]].
    + now apply IH.
    + rewrite get_field_cons, E. now apply IH.
Qed.

(** The values and properties the reader produces. *)
Definition xml_out (v : jsval) : Prop :=
  (exists s, v = xml_text s) \/ (exists fs, v = JObj fs).

Definition out_field (f : jfield) : Prop :=
  (exists v, f = FVal v /\ xml_out v)
  \/ (exists vs, f = FArr vs /\ 2 <= length vs /\ Forall xml_out vs).

Lemma xml_text_not_obj s fs : xml_text s <> JObj fs.
Proof. destruct (xml_text_cases s) as [E|[E|[[n [E _]]|[E _]]]]; rewrite E; discriminate. Qed.

Lemma xml_text_defined s : is_defined (xml_text s) = true.
Proof. destruct (xml_text_cases s) as [E|[E|[[n [E _]]|[E _]]]]; rewrite E; reflexivity. Qed.

Lemma xml_value_out v : is_defined v = true -> xml_out (xml_value v).
Proof.
  intros D. destruct v as [| b | r | s | fs]; try discriminate.
  - left. destruct b; [exists "true" | exists "false"]; reflexivity.
  - left. now exists r.
  - left. now exists s.
  - simpl. destruct (XF fs) as [|p ps]; [left; now exists "" | right; eauto].
Qed.

Lemma xml_elems_val w ws :
  is_defined w = true -> xml_elems_with xml_value (w :: ws) = xml_value w :: xml_elems_with xml_value ws.
Proof. destruct w; simpl; congruence. Qed.

Lemma xml_elems_out ws : Forall xml_out (xml_elems_with xml_value ws).
Proof.
  induction ws as [|w ws IH]; [constructor|].
  destruct (is_defined w) eqn:D.
  - rewrite xml_elems_val by exact D. constructor; [apply xml_value_out, D | exact IH].
  - destruct w; try discriminate. exact IH.
Qed.

Lemma xml_fields_out fs : Forall (fun p => out_field (snd p)) (XF fs).
Proof.
  induction fs as [|[m g] rest IH]; [constructor|].
  destruct g as [w|ws].
  - destruct (is_defined w) eqn:D.
    + rewrite xml_fields_val by exact D. constructor; [|exact IH].
      left. eexists; split; [reflexivity|]. apply xml_value_out, D.
    + destruct w; try discriminate. exact IH.
  - simpl. pose proof (xml_elems_out ws) as O.
    destruct (xml_elems_with xml_value ws) as [|a [|b l]]; [exact IH | |].
    + constructor; [|exact IH]. left. exists a. split; [reflexivity|].
      now inversion O.
    + constructor; [|exact IH]. right. eexists; split; [reflexivity|].
      split; [simpl; lia | exact O].
Qed.

Lemma elem_string_fixed v : xml_out v -> fixed (elem_string v) /\ cr_free (elem_string v).
Proof.
  intros [[s ->] | [fs ->]]; [|split; [split|]; reflexivity].
  destruct (xml_text_cases s) as [E|[E|[[n [E _]]|[E _]]]]; rewrite E;
    try (split; [split|]; reflexivity); apply (xml_text_clean s); rewrite E; auto.
Qed.

Lemma list_ascii_app a b :
  list_ascii_of_string (a ++ b) = (list_ascii_of_string a ++ list_ascii_of_string b)%list.
Proof. induction a as [|c a IH]; simpl; [reflexivity | now rewrite IH]. Qed.

Lemma join_cr_free ps : Forall cr_free ps -> cr_free (join_on "," ps).
Proof.
  induction ps as [|p ps IH]; intros F; [reflexivity|].
  inversion F as [|? ? Cp Fps]; subst.
  destruct ps as [|q qs]; [exact Cp|].
  change (join_on "," (p :: q :: qs)) with (p ++ String "," (join_on "," (q :: qs))).
  unfold cr_free in *. rewrite list_ascii_app, forallb_app, Cp. simpl.
  now apply IH.
Qed.

Lemma norm_key_str t : norm_key (FVal (JStr t)) = FVal (JStr t).
Proof. unfold norm_key. simpl. now rewrite andb_false_r. Qed.

(** A key read back twice reads back as the first time. *)
Lemma norm_key_stable f :
  out_field f ->
  exists w, norm_key f = FVal w /\ is_defined w = true
            /\ norm_key (FVal (xml_value w)) = FVal w.
Proof.
  intros [[v [-> [[s ->] | [fs ->]]]] | [vs [-> [L O]]]].
  - destruct (xml_text_cases s) as [E|[E|[[n [E N]]|[E [N [T F]]]]]]; rewrite E.
    + exists (JStr "true"). repeat split; reflexivity.
    + exists (JBool false). repeat split; reflexivity.
    + unfold norm_key. simpl.
      destruct (String.eqb_spec n "0") as [Z|Z]; simpl.
      * exists (JNum n). split; [reflexivity|]. split; [reflexivity|].
        simpl. rewrite (xml_num_again s n E). simpl.
        rewrite Z. reflexivity.
      * exists (JStr n). split; [reflexivity|]. split; [reflexivity|].
        simpl. rewrite (xml_num_again s n E). simpl.
        apply String.eqb_neq in Z. now rewrite Z.
    + exists (JStr (trim (eol s))). split; [apply norm_key_str|]. split; [reflexivity|].
      simpl. rewrite (xml_text_again s (trim (eol s)) E). apply norm_key_str.
  - exists (JStr "[object Object]"). repeat split; reflexivity.
  - set (j := join_on "," (map elem_string vs)).
    assert (Cl : Forall (fun p => fixed p /\ cr_free p) (map elem_string vs)).
    { apply Forall_map. eapply Forall_impl; [|exact O]. apply elem_string_fixed. }
    assert (Fj : fixed j /\ exists a b, j = a ++ String "," b).
    { apply join_two; [now rewrite length_map|].
      eapply Forall_impl; [|exact Cl]. now intros p [? ?]. }
    assert (Cj : cr_free j).
    { apply join_cr_free. eapply Forall_impl; [|exact Cl]. now intros p [? ?]. }
    destruct Fj as [Fj [a [b Ej]]].
    exists (JStr j). split; [reflexivity|]. split; [reflexivity|].
    simpl. rewrite Ej in *. rewrite xml_text_comma by assumption. apply norm_key_str.
Qed.

End FieldFacts.

(** ** Facts about reading the store back *)
Module LoadFacts.
Import Js Store TrimFacts FieldFacts.

Lemma xml_value_defined v : is_defined v = true -> is_defined (xml_value v) = true.
Proof.
  intros D. destruct (xml_value_out v D) as [[s ->]|[fs ->]];
    [apply xml_text_defined | reflexivity].
Qed.

Lemma normalize_defined v : is_defined v = true -> is_defined (normalize v) = true.
Proof.
  intros D. destruct v; try discriminate; reflexivity.
Qed.

Lemma key_non_obj v : (forall fs, v <> JObj fs) -> key_of v = FVal JUndef.
Proof. intros H. destruct v; try reflexivity. now destruct (H fs). Qed.

Lemma xml_value_not_obj v : (forall fs, v <> JObj fs) -> forall fs, xml_value v <> JObj fs.
Proof.
  intros H fs. destruct v as [| | r | s | fs']; simpl; try discriminate;
    try apply xml_text_not_obj. now destruct (H fs').
Qed.

Lemma xml_value_obj fs :
  xml_value (JObj fs) = match XF fs with [] => JStr "" | _ :: _ => JObj (XF fs) end.
Proof. simpl. now destruct (XF fs). Qed.

(** The key of a citation read back, written, and read back again. *)
Lemma key_reload y :
  key_of (normalize (xml_value (normalize (xml_value y)))) = key_of (normalize (xml_value y)).
Proof.
  destruct y as [| b | r | s | fs0];
    try (assert (N : forall fs, xml_value (JNum r) <> JObj fs)
           by (apply xml_value_not_obj; discriminate));
    try (assert (N : forall fs, xml_value (JStr s) <> JObj fs)
           by (apply xml_value_not_obj; discriminate));
    try reflexivity.
  1, 2: rewrite (normalize_not_obj _ N);
        rewrite (normalize_not_obj _ (xml_value_not_obj _ N));
        rewrite (key_non_obj _ N); apply key_non_obj, xml_value_not_obj, N.
  rewrite xml_value_obj.
  pose proof (xml_fields_out fs0) as O.
  destruct (XF fs0) as [|p ps] eqn:E1; [reflexivity|].
  set (fs1 := p :: ps) in *.
  destruct (normalize_key fs1) as [fs2 [N2 K2]]. rewrite N2.
  destruct (get_field fs1 "key") as [f|] eqn:K1; simpl in K2.
  - assert (Of : out_field f).
    { apply get_field_in in K1. rewrite Forall_forall in O. exact (O _ K1). }
    destruct (norm_key_stable f Of) as [w [Nw [Dw Sw]]]. rewrite Nw in K2.
    pose proof (xml_get_val fs2 "key" w K2 Dw) as G.
    rewrite xml_value_obj. destruct (XF fs2) as [|q qs] eqn:E2; [discriminate|].
    destruct (normalize_key (q :: qs)) as [fs4 [N4 K4]]. rewrite N4.
    unfold key_of. rewrite K4, G. simpl. rewrite Sw, K2. reflexivity.
  - pose proof (xml_get_none fs2 "key" K2) as G.
    rewrite xml_value_obj. destruct (XF fs2) as [|q qs] eqn:E2;
      [simpl; unfold key_of; now rewrite K2|].
    destruct (normalize_key (q :: qs)) as [fs4 [N4 K4]]. rewrite N4.
    unfold key_of. rewrite K4, G, K2. reflexivity.
Qed.

Lemma load_citations_incl w : incl (load_citations w) (map xml_value (filter is_defined w)).
Proof.
  unfold load_citations.
  destruct (map xml_value (filter is_defined w)) as [|x [|y l]]; try apply incl_refl.
  destruct (truthy x); [apply incl_refl | apply incl_nil_l].
Qed.

Lemma in_load d c :
  In c (load d) ->
  exists y, In y (block d) /\ is_defined y = true /\ c = normalize (xml_value y).
Proof.
  unfold load. intros H. apply in_map_iff in H as [u [<- Hu]].
  apply load_citations_incl in Hu. apply in_map_iff in Hu as [y [<- Hy]].
  apply filter_In in Hy as [Hy D]. eauto.
Qed.

Lemma load_defined d c : In c (load d) -> is_defined c = true.
Proof.
  intros H. destruct (in_load d c H) as [y [_ [D ->]]].
  now apply normalize_defined, xml_value_defined.
Qed.

Lemma load_key_stable d c : In c (load d) -> key_of (normalize (xml_value c)) = key_of c.
Proof. intros H. destruct (in_load d c H) as [y [_ [_ ->]]]. apply key_reload. Qed.

Lemma filter_all {A} (p : A -> bool) l : (forall x, In x l -> p x = true) -> filter p l = l.
Proof.
  induction l as [|a l IH]; intros H; [reflexivity|]. simpl.
  rewrite (H a) by now left. f_equal. apply IH. intros x Hx. apply H. now right.
Qed.

Lemma load_citations_all w :
  (forall x, In x w -> is_defined x = true) ->
  load_citations w = map xml_value w \/ load_citations w = [].
Proof.
  intros D. unfold load_citations. rewrite filter_all by exact D.
  destruct (map xml_value w) as [|x [|y l]]; auto. destruct (truthy x); auto.
Qed.

(** Writing citations read from the store and reading them back keeps
    their keys. *)
Lemma reload_keys d :
  (forall x, In x (block d) ->
             is_defined x = true /\ key_of (normalize (xml_value x)) = key_of x) ->
  map key_of (load d) = map key_of (block d) \/ load d = [].
Proof.
  intros H. unfold load.
  destruct (load_citations_all (block d)) as [E|E]; [intros x Hx; now apply H| |];
    rewrite E; [left | now right].
  rewrite !map_map. apply map_ext_in. intros x Hx. now apply H.
Qed.

Lemma NoDup_map_filter {A B} (f : A -> B) (p : A -> bool) l :
  NoDup (map f l) -> NoDup (map f (filter p l)).
Proof.
  induction l as [|a l IH]; intros N; [constructor|]. simpl in N.
  inversion N as [|? ? Na Nl]; subst. simpl. destruct (p a); [|now apply IH].
  simpl. constructor; [|now apply IH].
  intros Hin. apply Na. apply in_map_iff in Hin as [x [<- Hx]].
  apply filter_In in Hx as [Hx _]. now apply in_map.
Qed.

Lemma filter_length_le {A} (p : A -> bool) l : length (filter p l) <= length l.
Proof. induction l as [|a l IH]; simpl; [lia|]. destruct (p a); simpl; lia. Qed.

Lemma filter_lt_iff {A} (p : A -> bool) l :
  length (filter p l) < length l <-> exists x, In x l /\ p x = false.
Proof.
  induction l as [|a l IH]; simpl.
  - split; [lia | intros [x [[] _]]].
  - destruct (p a) eqn:P; simpl.
    + split.
      * intros L. destruct (proj1 IH) as [x [Hx Px]]; [lia|]. eauto.
      * intros [x [[->|Hx] Px]]; [congruence|]. assert (length (filter p l) < length l)
          by (apply IH; eauto). lia.
    + split; [eauto|]. intros _. pose proof (filter_length_le p l). lia.
Qed.

Lemma strict_eq_str f k : strict_eq f (FVal (JStr k)) = true <-> f = FVal (JStr k).
Proof.
  destruct f as [[| b | r | s | fs] | vs]; simpl; split; try discriminate.
  - intros H. apply String.eqb_eq in H. now subst.
  - intros H. injection H as ->. apply String.eqb_refl.
Qed.

Lemma map_get_none l k :
  (forall c, In c l -> strict_eq (key_of c) k = false) -> map_get l k = None.
Proof.
  unfold map_get. generalize (@None jsval) as acc.
  induction l as [|c l IH]; intros acc H; [reflexivity|]. simpl.
  rewrite (H c) by now left. apply IH. intros x Hx. apply H. now right.
Qed.

Lemma map_get_none_acc l k acc :
  (forall c, In c l -> strict_eq (key_of c) k = false) ->
  fold_left (fun acc c => if strict_eq (key_of c) k then Some c else acc) l acc = acc.
Proof.
  revert acc. induction l as [|c l IH]; intros acc H; [reflexivity|]. simpl.
  rewrite (H c) by now left. apply IH. intros x Hx. apply H. now right.
Qed.

Lemma map_get_last l c k :
  strict_eq (key_of c) k = true -> map_get (l ++ [c]) k = Some c.
Proof. intros H. unfold map_get. rewrite fold_left_app. simpl. now rewrite H. Qed.

End LoadFacts.

(** ** Facts about [prune] and [add] *)
Module OpFacts.
Import Js Store StoreSpec TrimFacts FieldFacts LoadFacts NumFacts.

Lemma includes_app l1 l2 k : includes (l1 ++ l2) k = includes l1 k || includes l2 k.
Proof. unfold includes. apply existsb_app. Qed.

Lemma set_has_referenced tags x :
  set_has (used_keys tags) (key_of x) = referenced tags x.
Proof.
  unfold referenced. destruct (key_of x) as [[| b | r | k | fs] | vs]; try reflexivity.
  simpl. induction tags as [|t ts IH]; [reflexivity|].
  simpl. rewrite includes_app, IH.
  destruct t as [v|]; [|reflexivity].
  destruct (String.eqb v ""); reflexivity.
Qed.

(** Citations read from the store keep their keys when written back. *)
Lemma reload_sub d kept :
  (forall x, In x kept -> In x (load d)) ->
  map key_of (load (save d kept)) = map key_of kept \/ load (save d kept) = [].
Proof.
  intros Sub. apply reload_keys. simpl. intros x Hx. split.
  - apply (load_defined d), Sub, Hx.
  - apply (load_key_stable d), Sub, Hx.
Qed.

Lemma NoDup_snoc {A} (l : list A) x : NoDup l -> ~ In x l -> NoDup (l ++ [x]).
Proof.
  induction l as [|a l IH]; intros N Hx; simpl; [constructor; [easy | constructor]|].
  inversion N as [|? ? Na Nl]; subst. constructor.
  - rewrite in_app_iff. intros [H|[H|[]]]; [contradiction | subst; apply Hx; now left].
  - apply IH; [exact Nl | intros H; apply Hx; now right].
Qed.

Lemma NoDup_reload d kept :
  (forall x, In x kept -> In x (load d)) -> NoDup (map key_of kept) ->
  NoDup (map key_of (load (save d kept))).
Proof.
  intros Sub N. destruct (reload_sub d kept Sub) as [E|E]; rewrite E; [exact N | constructor].
Qed.

Lemma keyed_obj r k :
  key_of r = FVal (JStr k) -> exists fs, r = JObj fs /\ get_field fs "key" = Some (FVal (JStr k)).
Proof.
  destruct r as [| | | | fs]; try discriminate. unfold key_of.
  destruct (get_field fs "key") eqn:K; [intros ->; eauto | discriminate].
Qed.

Lemma xml_value_keyed fs k :
  get_field fs "key" = Some (FVal (JStr k)) ->
  xml_value (JObj fs) = JObj (XF fs) /\ get_field (XF fs) "key" = Some (FVal (xml_text k)).
Proof.
  intros K. pose proof (xml_get_val fs "key" (JStr k) K eq_refl) as G.
  rewrite xml_value_obj. destruct (XF fs) as [|p ps]; [discriminate | now split].
Qed.

Lemma load_citations_last w r :
  (forall x, In x w -> is_defined x = true) -> is_defined r = true ->
  truthy (xml_value r) = true ->
  load_citations (w ++ [r]) = map xml_value (w ++ [r]).
Proof.
  intros D Dr T. unfold load_citations. rewrite filter_all.
  - destruct w as [|a w']; [simpl; now rewrite T|].
    rewrite map_app. simpl. destruct (map xml_value w' ++ [xml_value r])%list eqn:E; [|reflexivity].
    destruct w'; discriminate.
  - intros x Hx. apply in_app_iff in Hx as [Hx|[<-|[]]]; [now apply D | exact Dr].
Qed.

(** What the store reads after [add r] for a record with a string key. *)
Lemma load_add d r k :
  key_of r = FVal (JStr k) ->
  load (add r d) =
  map (fun x => normalize (xml_value x))
      (filter (fun x => negb (strict_eq (key_of x) (FVal (JStr k)))) (load d) ++ [r]).
Proof.
  intros Kr. destruct (keyed_obj r k Kr) as [fs [-> K]].
  destruct (xml_value_keyed fs k K) as [Xv _].
  unfold load at 1, add, save. cbn [block]. rewrite Kr.
  rewrite load_citations_last; [now rewrite map_map | | reflexivity | now rewrite Xv].
  intros x Hx. apply filter_In in Hx as [Hx _]. now apply (load_defined d).
Qed.

Lemma plain_start c :
  num_start c = true -> existsb (is_char c) (list_ascii_of_string "+-./0123456789") = true.
Proof. destruct c as [[] [] [] [] [] [] [] []]; vm_compute; congruence. Qed.

Lemma has_cr_free k : has_cr k = false -> cr_free k.
Proof.
  unfold has_cr, cr_free. induction (list_ascii_of_string k) as [|c l IH]; [reflexivity|].
  simpl. intros H. apply orb_false_iff in H as [H1 H2]. now rewrite H1, IH.
Qed.

(** Text that does not start like a number is not read as one. *)
Lemma num_text_plain k : starts_numeric k = false -> num_text k = None.
Proof.
  intros N. unfold num_text.
  destruct (num_chars (list_ascii_of_string k)) as [l|] eqn:E; [|reflexivity].
  apply num_chars_head in E as [c [r [Ek Sc]]].
  destruct k as [|c' k]; [discriminate|]. simpl in Ek. injection Ek as <- _.
  unfold starts_numeric in N. now rewrite plain_start in N.
Qed.

Lemma plain_text_stable k : plain_text k = true -> xml_text k = JStr k.
Proof.
  unfold plain_text. intros H.
  apply andb_prop in H as [H F]. apply andb_prop in H as [H T].
  apply andb_prop in H as [H N]. apply andb_prop in H as [Tr C].
  apply String.eqb_eq in Tr. apply negb_true_iff in C, N, T, F.
  unfold xml_text. rewrite eol_id by (now apply has_cr_free). rewrite Tr, T, F.
  now rewrite num_text_plain.
Qed.

Lemma key_load_one r k :
  key_of r = FVal (JStr k) -> plain_text k = true ->
  key_of (normalize (xml_value r)) = FVal (JStr k).
Proof.
  intros Kr P. destruct (keyed_obj r k Kr) as [fs [-> K]].
  destruct (xml_value_keyed fs k K) as [-> G].
  destruct (normalize_key (XF fs)) as [fs2 [-> K2]].
  unfold key_of. rewrite K2, G, plain_text_stable by exact P. simpl.
  apply norm_key_str.
Qed.

(** One operation with a plain key keeps the keys of the store distinct. *)
Lemma step_nodup o d :
  op_plain o = true -> NoDup (map key_of (load d)) -> NoDup (map key_of (load (step o d))).
Proof.
  intros P N. destruct o as [c | k | | ]; simpl.
  - simpl in P. destruct (key_of c) as [[| | | k | ] | ] eqn:Kc; try discriminate.
    rewrite (load_add d c k Kc), map_map, map_app. simpl.
    rewrite (key_load_one c k Kc P).
    set (p := fun x => negb (strict_eq (key_of x) (FVal (JStr k)))).
    rewrite (map_ext_in _ key_of (filter p (load d))).
    + apply NoDup_snoc; [now apply NoDup_map_filter|].
      intros Hin. apply in_map_iff in Hin as [x [Kx Hx]].
      apply filter_In in Hx as [_ Px]. unfold p in Px. rewrite Kx in Px.
      simpl in Px. now rewrite String.eqb_refl in Px.
    + intros x Hx. apply filter_In in Hx as [Hx _]. now apply (load_key_stable d).
  - unfold remove. destruct (Nat.ltb _ _); [|exact N]. simpl.
    apply NoDup_reload; [intros x Hx; now apply filter_In in Hx as [Hx _] |].
    now apply NoDup_map_filter.
  - unfold prune. simpl.
    apply NoDup_reload; [intros x Hx; now apply filter_In in Hx as [Hx _] |].
    now apply NoDup_map_filter.
  - constructor.
Qed.

Lemma filter_none {A} (p : A -> bool) l : (forall x, In x l -> p x = false) -> filter p l = [].
Proof.
  induction l as [|a l IH]; intros H; [reflexivity|]. simpl.
  rewrite (H a) by now left. apply IH. intros x Hx. apply H. now right.
Qed.

(** The block written by [add r]: the old records under other keys, then [r]. *)
Lemma add_block_key d r k :
  key_of r = FVal (JStr k) ->
  filter (fun x => strict_eq (key_of x) (FVal (JStr k))) (block (add r d)) = [r]
  /\ (NoDup (map key_of (load d)) -> NoDup (map key_of (block (add r d)))).
Proof.
  intros Kr. unfold add. cbn [block save]. rewrite Kr.
  set (p := fun x => negb (strict_eq (key_of x) (FVal (JStr k)))).
  split.
  - rewrite filter_app, filter_none.
    + simpl. rewrite Kr. simpl. now rewrite String.eqb_refl.
    + intros x Hx. apply filter_In in Hx as [_ Px]. unfold p in Px.
      now destruct (strict_eq _ _).
  - intros N. rewrite map_app. apply NoDup_snoc; [now apply NoDup_map_filter|].
    rewrite Kr. intros Hin. apply in_map_iff in Hin as [x [Kx Hx]].
    apply filter_In in Hx as [_ Px]. unfold p in Px. rewrite Kx in Px.
    simpl in Px. now rewrite String.eqb_refl in Px.
Qed.

End OpFacts.

(** ** Records the persisted format reads back unchanged *)
Module PlainFacts.
Import Js Store StoreSpec TrimFacts FieldFacts LoadFacts OpFacts NumFacts.

Lemma digit_not_ws c : is_digit c = true -> is_ws c = false.
Proof. destruct c as [[] [] [] [] [] [] [] []]; vm_compute; congruence. Qed.

Lemma rtrim_digits s : forallb is_digit (list_ascii_of_string s) = true -> rtrim s = s.
Proof.
  induction s as [|c s IH]; [reflexivity|]. simpl. intros H.
  apply andb_prop in H as [Dc Ds]. rewrite (IH Ds), (digit_not_ws c Dc), andb_false_r.
  reflexivity.
Qed.

Lemma length_list_ascii s : length (list_ascii_of_string s) = String.length s.
Proof. induction s as [|c s IH]; simpl; [reflexivity | now rewrite IH]. Qed.

Lemma digits_cr_free s : forallb is_digit (list_ascii_of_string s) = true -> cr_free s.
Proof.
  unfold cr_free. apply forallb_impl. intros c.
  destruct c as [[] [] [] [] [] [] [] []]; vm_compute; congruence.
Qed.

Lemma int_literal_stable r : is_int_literal r = true -> xml_text r = JNum r.
Proof.
  intros I. destruct r as [|c s]; [discriminate|].
  assert (Ds : forallb is_digit (list_ascii_of_string (String c s)) = true).
  { unfold is_int_literal in I. now apply andb_prop in I as [I _]; apply andb_prop in I as [I _]. }
  assert (Tr : trim (String c s) = String c s).
  { unfold trim. pose proof Ds as Ds0. simpl in Ds0. apply andb_prop in Ds0 as [Dc _].
    rewrite ltrim_nonws by (now apply digit_not_ws). now apply rtrim_digits. }
  unfold xml_text. rewrite eol_id by (now apply digits_cr_free). rewrite Tr.
  destruct (String.eqb_spec (String c s) "true") as [E|_];
    [rewrite E in Ds; discriminate|].
  destruct (String.eqb_spec (String c s) "false") as [E|_];
    [rewrite E in Ds; discriminate|].
  unfold is_int_literal in I. apply andb_prop in I as [I L]. apply andb_prop in I as [_ Z].
  apply Nat.leb_le in L.
  destruct (String.eqb_spec (String c s) "0") as [E|NE].
  { rewrite E. reflexivity. }
  simpl in Z. apply negb_true_iff in Z.
  unfold num_text. cbn [list_ascii_of_string].
  rewrite num_chars_int.
  - simpl option_map. cbv iota. f_equal. f_equal. apply string_of_list_ascii_of_string.
  - exact Ds.
  - exact Z.
  - change (length (list_ascii_of_string (String c s)) <= 15). now rewrite length_list_ascii.
Qed.

Lemma xml_elems_plain ws :
  Forall (fun v => plain_value v = true -> xml_value v = v) ws ->
  plain_elems_with plain_value ws = true -> xml_elems_with xml_value ws = ws.
Proof.
  induction ws as [|w ws IH]; intros F P; [reflexivity|].
  inversion F as [|? ? Fw Fws]; subst. simpl in P. apply andb_prop in P as [Pw Pws].
  assert (Dw : is_defined w = true) by (destruct w; easy).
  rewrite xml_elems_val by exact Dw. rewrite (Fw Pw), (IH Fws Pws). reflexivity.
Qed.

Definition stable_field (f : jfield) : Prop :=
  match f with
  | FVal v => plain_value v = true -> xml_value v = v
  | FArr vs => Forall (fun v => plain_value v = true -> xml_value v = v) vs
  end.

Lemma xml_fields_plain fs :
  Forall (fun p => stable_field (snd p)) fs ->
  plain_fields_with plain_value fs = true -> XF fs = fs.
Proof.
  induction fs as [|[m g] rest IH]; intros F P; [reflexivity|].
  inversion F as [|? ? Fg Frest]; subst. simpl in Fg.
  destruct g as [w|ws].
  - simpl in P. apply andb_prop in P as [Pw Prest].
    assert (Dw : is_defined w = true) by (destruct w; easy).
    rewrite xml_fields_val by exact Dw. rewrite (Fg Pw), (IH Frest Prest). reflexivity.
  - simpl in P. apply andb_prop in P as [P Prest]. apply andb_prop in P as [L Pws].
    simpl. rewrite (xml_elems_plain ws Fg Pws), (IH Frest Prest).
    destruct ws as [|a [|b l]]; [discriminate | discriminate | reflexivity].
Qed.

Lemma plain_value_stable v : plain_value v = true -> xml_value v = v.
Proof.
  revert v.
  refine (jsval_ind' (fun v => plain_value v = true -> xml_value v = v) stable_field
            _ _ _ _ _ _ _).
  - discriminate.
  - reflexivity.
  - intros r I. apply int_literal_stable, I.
  - intros s P. apply plain_text_stable, P.
  - intros fs F P. simpl in P.
    apply andb_prop in P as [P Pf]. apply andb_prop in P as [NE _].
    rewrite xml_value_obj, (xml_fields_plain fs F Pf).
    destruct fs; [discriminate | reflexivity].
  - intros v H. exact H.
  - intros vs H. exact H.
Qed.

Lemma plain_fields_forall fs :
  plain_fields_with plain_value fs = forallb (fun p => plain_fields_with plain_value [p]) fs.
Proof.
  induction fs as [|p rest IH]; [reflexivity|].
  transitivity (plain_fields_with plain_value [p] && plain_fields_with plain_value rest).
  - destruct p as [m [w|ws]]; simpl.
    + now destruct (plain_value w).
    + now destruct (length ws) as [|[|?]], (plain_elems_with plain_value ws).
  - now rewrite IH.
Qed.

Lemma plain_fields_stable fs :
  plain_fields_with plain_value fs = true -> XF fs = fs.
Proof.
  intros P. apply xml_fields_plain; [|exact P].
  rewrite plain_fields_forall, forallb_forall in P.
  apply Forall_forall. intros [m [w|ws]] Hin; specialize (P _ Hin); simpl in P |- *.
  - apply andb_prop in P as [P _]. intros _. now apply plain_value_stable.
  - apply andb_prop in P as [P _]. apply andb_prop in P as [_ P].
    clear Hin. induction ws as [|a ws IH]; constructor; simpl in P;
      apply andb_prop in P as [Pa Pws]; [intros _; now apply plain_value_stable | now apply IH].
Qed.

Lemma xml_fields_app a b : XF (a ++ b) = (XF a ++ XF b)%list.
Proof.
  induction a as [|[m g] a IH]; [reflexivity|].
  destruct g as [[| | | | ] | ws]; simpl; rewrite ?IH; try reflexivity.
  destruct (xml_elems_with xml_value ws) as [|? [|? ?]]; reflexivity.
Qed.

Lemma distinct_split (fs : list (string * jfield)) (n : string) :
  In n (map fst fs) -> distinct (map fst fs) = true ->
  exists pre g post, fs = (pre ++ (n, g) :: post)%list
                     /\ ~ In n (map fst pre) /\ ~ In n (map fst post).
Proof.
  induction fs as [|[m g] rest IH]; [intros []|]. simpl. intros Hin D.
  apply andb_prop in D as [Nm Dr]. apply negb_true_iff in Nm.
  assert (Nin : forall x, includes (map fst rest) x = false -> ~ In x (map fst rest)).
  { intros x H Hx. unfold includes in H.
    assert (existsb (String.eqb x) (map fst rest) = true); [|congruence].
    apply existsb_exists. exists x. split; [exact Hx | apply String.eqb_refl]. }
  destruct (String.eqb_spec m n) as [<-|E].
  - exists [], g, rest. split; [reflexivity|]. split; [intros []|]. now apply Nin.
  - destruct Hin as [H|Hin]; [contradiction|].
    destruct (IH Hin Dr) as [pre [g' [post [-> [N1 N2]]]]].
    exists ((m, g) :: pre), g', post. split; [reflexivity|]. split; [|exact N2].
    simpl. intros [H|H]; [contradiction | exact (N1 H)].
Qed.

Lemma get_field_app_first pre n g post :
  ~ In n (map fst pre) -> get_field (pre ++ (n, g) :: post) n = Some g.
Proof.
  induction pre as [|[m h] pre IH]; intros N.
  - simpl. rewrite get_field_cons. now rewrite String.eqb_refl.
  - simpl. rewrite get_field_cons. simpl in N.
    destruct (String.eqb_spec m n) as [->|_]; [now destruct N; left|].
    apply IH. intros H. apply N. now right.
Qed.

Lemma get_field_app_other pre m g g' post n :
  m <> n -> get_field (pre ++ (m, g) :: post) n = get_field (pre ++ (m, g') :: post) n.
Proof.
  intros D. induction pre as [|[p h] pre IH].
  - simpl. rewrite !get_field_cons. apply String.eqb_neq in D. now rewrite D.
  - simpl. rewrite !get_field_cons. now rewrite IH.
Qed.

Lemma set_field_app_first pre n g g' post :
  ~ In n (map fst pre) -> set_field (pre ++ (n, g) :: post) n g' = (pre ++ (n, g') :: post)%list.
Proof.
  induction pre as [|[m h] pre IH]; intros N.
  - simpl. now rewrite String.eqb_refl.
  - simpl. simpl in N. destruct (String.eqb_spec m n) as [->|_]; [now destruct N; left|].
    rewrite IH; [reflexivity|]. intros H. apply N. now right.
Qed.

Lemma xml_elems_all vs :
  (forall v, In v vs -> plain_value v = true) -> xml_elems_with xml_value vs = vs.
Proof.
  induction vs as [|v vs IH]; intros H; [reflexivity|].
  assert (Pv : plain_value v = true) by (apply H; now left).
  rewrite xml_elems_val by (destruct v; easy).
  rewrite (plain_value_stable v Pv), IH; [reflexivity|]. intros x Hx. apply H. now right.
Qed.

Lemma xml_fields_arr m ws rest :
  XF ((m, FArr ws) :: rest) =
  match xml_elems_with xml_value ws with
  | [] => XF rest
  | [w'] => (m, FVal w') :: XF rest
  | ws' => (m, FArr ws') :: XF rest
  end.
Proof. reflexivity. Qed.

Lemma xml_value_obj_ne fs : XF fs <> [] -> xml_value (JObj fs) = JObj (XF fs).
Proof. intros H. rewrite xml_value_obj. now destruct (XF fs). Qed.

Lemma get_field_notin fs n : ~ In n (map fst fs) -> get_field fs n = None.
Proof.
  induction fs as [|[m g] rest IH]; intros N; [reflexivity|].
  rewrite get_field_cons. simpl in N. destruct (String.eqb_spec m n) as [->|_];
    [now destruct N; left|]. apply IH. intros H. apply N. now right.
Qed.

(** Normalization leaves a record with a string key and no single
    creator as it is. *)
Lemma normalize_plain fs k :
  get_field fs "key" = Some (FVal (JStr k)) ->
  (forall c, get_field fs "creators" <> Some (FVal c)) ->
  normalize (JObj fs) = JObj fs.
Proof.
  intros K C. unfold normalize. rewrite K. cbn [truthy_f is_string_f negb].
  rewrite andb_false_r.
  destruct (get_field fs "creators") as [[c|vs]|] eqn:G; try reflexivity.
  now destruct (C c).
Qed.

(** A plain record is read back as it was written. *)
Lemma plain_record_stable r : plain_record r = true -> normalize (xml_value r) = r.
Proof.
  destruct r as [| | | | fs]; try discriminate. unfold plain_record.
  intros P. apply andb_prop in P as [P Fs]. apply andb_prop in P as [Nm Kp].
  destruct (get_field fs "key") as [[[| | | k |] | ] | ] eqn:K; try discriminate.
  rewrite forallb_forall in Fs.
  assert (Dn : distinct (map fst fs) = true)
    by (unfold names_ok in Nm; now apply andb_prop in Nm as [Nm _]).
  assert (Pl : forall p, In p fs -> fst p <> "creators" -> plain_fields_with plain_value [p] = true).
  { intros p Hp D. specialize (Fs p Hp). apply String.eqb_neq in D. now rewrite D in Fs. }
  destruct (in_dec string_dec "creators" (map fst fs)) as [Cin|Cout].
  - destruct (distinct_split fs "creators" Cin Dn) as [pre [g [post [E [N1 N2]]]]].
    assert (Side : forall p, In p pre \/ In p post -> plain_fields_with plain_value [p] = true).
    { intros p Hp. apply Pl.
      - rewrite E. apply in_app_iff. simpl. tauto.
      - intros D. destruct Hp as [Hp|Hp]; [apply N1 | apply N2]; rewrite <- D; now apply in_map. }
    assert (Xpre : XF pre = pre).
    { apply plain_fields_stable. rewrite plain_fields_forall, forallb_forall.
      intros p Hp. apply Side. now left. }
    assert (Xpost : XF post = post).
    { apply plain_fields_stable. rewrite plain_fields_forall, forallb_forall.
      intros p Hp. apply Side. now right. }
    assert (Fc := Fs ("creators", g)). rewrite E in Fc.
    specialize (Fc (in_elt _ _ _)). simpl in Fc.
    destruct g as [v|vs]; [discriminate|].
    apply andb_prop in Fc as [L Ov]. rewrite forallb_forall in Ov.
    assert (Xvs : xml_elems_with xml_value vs = vs).
    { apply xml_elems_all. intros v Hv. specialize (Ov v Hv).
      now apply andb_prop in Ov as [Ov _]. }
    assert (XE : XF fs = (pre ++ XF (("creators", FArr vs) :: post))%list).
    { now rewrite E, xml_fields_app, Xpre. }
    rewrite xml_fields_arr, Xvs, Xpost in XE.
    rewrite xml_value_obj_ne by (rewrite XE; destruct vs as [|? [|? ?]];
                                   [simpl in L; discriminate | |]; destruct pre; discriminate).
    rewrite XE. destruct vs as [|v [|v2 vs']]; [discriminate | |].
    + assert (Kx : get_field (pre ++ ("creators", FVal v) :: post) "key" = Some (FVal (JStr k))).
      { rewrite (get_field_app_other _ _ _ (FArr [v])) by discriminate. now rewrite <- E. }
      unfold normalize. rewrite Kx. cbn [truthy_f is_string_f negb]. rewrite andb_false_r.
      rewrite get_field_app_first by exact N1.
      assert (Tv : truthy v = true).
      { specialize (Ov v (or_introl eq_refl)). apply andb_prop in Ov as [_ Ov].
        now destruct v. }
      rewrite Tv, set_field_app_first by exact N1. now rewrite E.
    + rewrite <- E. apply (normalize_plain fs k K).
      intros c. rewrite E, get_field_app_first by exact N1. discriminate.
  - assert (Xf : XF fs = fs).
    { apply plain_fields_stable. rewrite plain_fields_forall, forallb_forall.
      intros p Hp. apply Pl; [exact Hp|]. intros D. apply Cout. rewrite <- D. now apply in_map. }
    rewrite xml_value_obj_ne by (rewrite Xf; intros ->; discriminate).
    rewrite Xf. apply (normalize_plain fs k K).
    intros c. rewrite get_field_notin by exact Cout. discriminate.
Qed.

End PlainFacts.

(** ** The claims on the store *)
Module StoreClaims.
Import Js Store StoreSpec StoreExamples TrimFacts FieldFacts LoadFacts OpFacts PlainFacts.

(** C4: [remove k] reports [true] exactly when a record under [k] was in
    the store; afterwards no record is found under [k]; and when it reports
    [false] the document is left as it was (nothing is written). *)
Theorem remove_correct (d : Doc) (k : string) :
  let '(removed, d') := remove k d in
  (removed = true <-> exists x, In x (load d) /\ key_of x = FVal (JStr k))
  /\ getItem [k] d' = [None]
  /\ (removed = false -> d' = d).
Proof.
  unfold remove.
  set (p := fun cit => negb (strict_eq (key_of cit) (FVal (JStr k)))).
  destruct (Nat.ltb_spec (length (filter p (load d))) (length (load d))) as [L|L].
  - apply filter_lt_iff in L as [x0 [Hx0 Px0]].
    split; [|split; [|discriminate]].
    + split; [intros _ | reflexivity]. exists x0. split; [exact Hx0|].
      apply strict_eq_str. unfold p in Px0. now destruct (strict_eq _ _).
    + unfold getItem. cbn [map]. f_equal. apply map_get_none. intros c Hc.
      destruct (in_load _ c Hc) as [y [Hy [_ ->]]]. simpl in Hy.
      apply filter_In in Hy as [Hy Py].
      rewrite (load_key_stable d y Hy). unfold p in Py. now destruct (strict_eq _ _).
  - assert (All : forall c, In c (load d) -> strict_eq (key_of c) (FVal (JStr k)) = false).
    { intros c Hc. destruct (strict_eq (key_of c) (FVal (JStr k))) eqn:E; [|reflexivity].
      assert (length (filter p (load d)) < length (load d)); [|lia].
      apply filter_lt_iff. exists c. split; [exact Hc|]. unfold p. now rewrite E. }
    split; [|split; [|reflexivity]].
    + split; [discriminate|]. intros [x [Hx Kx]].
      apply strict_eq_str in Kx. now rewrite (All x Hx) in Kx.
    + unfold getItem. cbn [map]. f_equal. now apply map_get_none.
Qed.







(** C5: [prune] writes back the records read from the store whose key is
    listed by some slide, in order, leaves the slides alone, returns the
    number of records dropped, and a second [prune] drops nothing; with
    keys A, B, C and one slide listing A it drops B and C and returns 2. *)
Theorem prune_correct :
  (forall d,
     let '(n, d') := prune d in
     block d' = filter (referenced (slides d)) (load d)
     /\ slides d' = slides d
     /\ n = length (load d) - length (block d')
     /\ fst (prune d') = 0)
  /\ fst (prune doc_ABC) = 2
  /\ map key_of (block (snd (prune doc_ABC))) = [FVal (JStr "A")].
Proof.
  split; [|split; vm_compute; reflexivity].
  intros d. unfold prune at 1.
  set (kept := filter (fun cit => set_has (used_keys (slides d)) (key_of cit)) (load d)).
  assert (Ek : kept = filter (referenced (slides d)) (load d)).
  { apply filter_ext. intros x. apply set_has_referenced. }
  split; [exact Ek|]. split; [reflexivity|]. split; [reflexivity|].
  unfold prune. cbn [fst]. rewrite filter_all; [lia|].
  intros c Hc. destruct (in_load _ c Hc) as [y [Hy [_ ->]]]. cbn [block save] in Hy.
  cbn [slides save]. pose proof Hy as Hy'. unfold kept in Hy'.
  apply filter_In in Hy' as [Hin Py]. now rewrite (load_key_stable d y Hin).
Qed.

(** C6 (counterexample): when every record is still listed, [prune]
    removes nothing and still writes the block. *)
Lemma prune_rewrites_unchanged :
  fst (prune doc_A) = 0 /\ block (snd (prune doc_A)) = block doc_A
  /\ saves (snd (prune doc_A)) <> saves doc_A.
Proof. vm_compute. split; [reflexivity|]. split; [reflexivity | discriminate]. Qed.

(** C6 (amended): [prune] always writes the block once; when every record
    read is listed by some slide it removes nothing and writes back the
    store as read. *)
Theorem prune_always_writes (d : Doc) :
  saves (snd (prune d)) = S (saves d)
  /\ ((forall x, In x (load d) -> referenced (slides d) x = true) ->
      fst (prune d) = 0 /\ block (snd (prune d)) = load d).
Proof.
  split; [reflexivity|]. intros H. unfold prune. cbn [fst snd block save].
  rewrite filter_all; [split; [lia | reflexivity]|].
  intros x Hx. rewrite set_has_referenced. now apply H.
Qed.

Lemma prune_always_writes_witness :
  (forall x, In x (load doc_A) -> referenced (slides doc_A) x = true)
  /\ fst (prune doc_A) = 0 /\ block (snd (prune doc_A)) = load doc_A.
Proof.
  assert (H : forall x, In x (load doc_A) -> referenced (slides doc_A) x = true).
  { intros x Hx. vm_compute in Hx. destruct Hx as [<-|[]]. reflexivity. }
  split; [exact H|]. exact (proj2 (prune_always_writes doc_A) H).
Defined.

End StoreClaims.

(** ** Facts about the slide reference lists *)
Module SlideFacts.
Import Slides StoreSpec.

Lemma split_nonempty sep s : exists p ps, split_on sep s = p :: ps.
Proof.
  induction s as [|c s [p [ps IH]]]; simpl; [eauto|]. rewrite IH.
  destruct (is_char c sep); eauto.
Qed.

Lemma has_comma_cons c x : has_comma (String c x) = is_char c "," || has_comma x.
Proof. reflexivity. Qed.

Lemma split_no_comma x : has_comma x = false -> split_on "," x = [x].
Proof.
  induction x as [|c x IH]; intros H; [reflexivity|].
  rewrite has_comma_cons in H. apply orb_false_iff in H as [Hc Hx].
  simpl. rewrite (IH Hx), Hc. reflexivity.
Qed.

Lemma split_app_comma x y :
  has_comma x = false -> split_on "," (x ++ String "," y) = x :: split_on "," y.
Proof.
  induction x as [|c x IH]; intros H.
  - simpl. destruct (split_nonempty "," y) as [p [ps E]]. now rewrite E.
  - rewrite has_comma_cons in H. apply orb_false_iff in H as [Hc Hx].
    simpl. rewrite (IH Hx), Hc. reflexivity.
Qed.

Lemma split_join l :
  l <> [] -> Forall (fun p => has_comma p = false) l -> split_on "," (join_on "," l) = l.
Proof.
  induction l as [|a l IH]; intros NE F; [contradiction|].
  inversion F as [|? ? Fa Fl]; subst.
  destruct l as [|b l']; [now apply split_no_comma|].
  change (join_on "," (a :: b :: l')) with (a ++ String "," (join_on "," (b :: l'))).
  rewrite split_app_comma by exact Fa. rewrite IH; [reflexivity | discriminate | exact Fl].
Qed.

Lemma split_pieces s : Forall (fun p => has_comma p = false) (split_on "," s).
Proof.
  induction s as [|c s IH]; simpl; [constructor; [reflexivity | constructor]|].
  destruct (split_on "," s) as [|p ps]; [constructor|].
  inversion IH as [|? ? Fp Fps]; subst.
  destruct (is_char c ",") eqn:C.
  - constructor; [reflexivity | exact IH].
  - constructor; [|exact Fps]. rewrite has_comma_cons, C. exact Fp.
Qed.

Lemma keys_pieces tag : Forall (fun p => has_comma p = false) (getCitationKeysOnSlide tag).
Proof.
  destruct tag as [v|]; simpl; [|constructor].
  destruct (String.eqb v ""); [constructor | apply split_pieces].
Qed.

Lemma join_snoc_nonempty l k : k <> "" -> join_on "," (l ++ [k]) <> "".
Proof.
  intros K. destruct l as [|a l]; [exact K|].
  simpl. destruct (l ++ [k])%list as [|b r] eqn:E; [destruct l; discriminate|].
  destruct a; discriminate.
Qed.

Lemma includes_In l k : includes l k = true <-> In k l.
Proof.
  unfold includes. rewrite existsb_exists. split.
  - intros [x [Hx E]]. apply String.eqb_eq in E. now subst.
  - intros H. exists k. split; [exact H | apply String.eqb_refl].
Qed.

(** The list read back after appending [k]. *)
Lemma keys_after_add tag k :
  k <> "" -> has_comma k = false ->
  getCitationKeysOnSlide (Some (join_on "," (getCitationKeysOnSlide tag ++ [k])))
  = (getCitationKeysOnSlide tag ++ [k])%list.
Proof.
  intros K C. unfold getCitationKeysOnSlide at 1.
  destruct (String.eqb_spec (join_on "," (getCitationKeysOnSlide tag ++ [k])) "") as [E|_].
  - now destruct (join_snoc_nonempty _ _ K E).
  - apply split_join; [destruct (getCitationKeysOnSlide tag); discriminate|].
    apply Forall_app. split; [apply keys_pieces | now constructor].
Qed.

End SlideFacts.

(** ** The claims on slides *)
Module SlideClaims.
Import Formatter Slides StoreSpec SlideExamples SlideFacts.

(** C7 (counterexample): a key holding a comma is split when the list is
    read back, so a second call appends it again. *)
Lemma addKey_comma_twice :
  addCitationKeyToSlide "a,b" None = Some "a,b"
  /\ addCitationKeyToSlide "a,b" (addCitationKeyToSlide "a,b" None) = Some "a,b,a,b".
Proof. split; reflexivity. Qed.

(** C7 (amended): for a non-empty key without a comma, [addCitationKeyToSlide]
    leaves a slide already listing the key as it is and otherwise appends the
    key at the end; calling it twice gives the tag of one call, and when the
    list held the key at most once the result holds it exactly once. *)
Theorem addKey_idempotent (tag : option string) (k : string) :
  k <> "" -> has_comma k = false ->
  (includes (getCitationKeysOnSlide tag) k = true -> addCitationKeyToSlide k tag = tag)
  /\ (includes (getCitationKeysOnSlide tag) k = false ->
      getCitationKeysOnSlide (addCitationKeyToSlide k tag) = (getCitationKeysOnSlide tag ++ [k])%list)
  /\ addCitationKeyToSlide k (addCitationKeyToSlide k tag) = addCitationKeyToSlide k tag
  /\ (count_occ string_dec (getCitationKeysOnSlide tag) k <= 1 ->
      count_occ string_dec (getCitationKeysOnSlide (addCitationKeyToSlide k tag)) k = 1).
Proof.
  intros K C.
  assert (Add : addCitationKeyToSlide k tag =
                if includes (getCitationKeysOnSlide tag) k then tag
                else Some (join_on "," (getCitationKeysOnSlide tag ++ [k]))).
  { unfold addCitationKeyToSlide. now destruct (includes _ k). }
  destruct (includes (getCitationKeysOnSlide tag) k) eqn:I.
  - split; [intros _; exact Add|]. split; [discriminate|]. rewrite Add. split.
    + unfold addCitationKeyToSlide. now rewrite I.
    + intros L. apply includes_In in I. apply (count_occ_In string_dec) in I. lia.
  - assert (Ek := keys_after_add tag k K C). rewrite Add.
    split; [discriminate|]. split; [intros _; exact Ek|]. split.
    + unfold addCitationKeyToSlide. rewrite Ek.
      assert (H : In k (getCitationKeysOnSlide tag ++ [k])%list)
        by (apply in_or_app; right; now left).
      apply includes_In in H. now rewrite H.
    + intros _. rewrite Ek, count_occ_app. simpl.
      destruct (string_dec k k) as [_|N]; [|contradiction].
      assert (H : ~ In k (getCitationKeysOnSlide tag)).
      { intros H. apply includes_In in H. congruence. }
      rewrite (proj1 (count_occ_not_In string_dec _ _) H). reflexivity.
Qed.

Lemma addKey_idempotent_witness :
  addCitationKeyToSlide "C" (addCitationKeyToSlide "C" (Some "A,B"))
  = addCitationKeyToSlide "C" (Some "A,B")
  /\ count_occ string_dec (getCitationKeysOnSlide (addCitationKeyToSlide "C" (Some "A,B"))) "C" = 1.
Proof.
  destruct (addKey_idempotent (Some "A,B") "C") as [_ [_ [E3 E4]]];
    [discriminate | reflexivity |].
  split; [exact E3 | apply E4; vm_compute; lia].
Defined.

(** C9: with keys A (in the store) and M (missing) the loop emits the
    delimiter after A although no citation follows: the test [index <
    citations.length - 1] counts the missing key. *)
Theorem trailing_delimiter_after_last (lookup : string -> option string) :
  show_segments "{title}" ";  " lookup [alpha] ["A"; "M"]
  = Ok [plain_segment "Alpha"; plain_segment ";  "].
Proof. reflexivity. Qed.

End SlideClaims.

(** ** Lookups in the store after each operation *)
Module ExtraStoreFacts.
Import Js Store StoreSpec TrimFacts FieldFacts LoadFacts OpFacts PlainFacts.

Lemma existsb_key_map K l :
  existsb (fun c => strict_eq (key_of c) K) l = existsb (fun f => strict_eq f K) (map key_of l).
Proof. induction l as [|c l IH]; simpl; [reflexivity | now rewrite IH]. Qed.

Lemma map_get_fold_is_some l k acc :
  is_some (fold_left (fun acc c => if strict_eq (key_of c) k then Some c else acc) l acc)
  = is_some acc || existsb (fun c => strict_eq (key_of c) k) l.
Proof.
  revert acc. induction l as [|c l IH]; intros acc; simpl; [now rewrite orb_false_r|].
  rewrite IH. destruct (strict_eq (key_of c) k); simpl; [now rewrite orb_true_r | reflexivity].
Qed.

(** A key is found exactly when some record carries it. *)
Lemma map_get_is_some l k : is_some (map_get l k) = existsb (fun c => strict_eq (key_of c) k) l.
Proof. unfold map_get. now rewrite map_get_fold_is_some. Qed.

Lemma map_get_fold_some l k acc c :
  fold_left (fun acc c => if strict_eq (key_of c) k then Some c else acc) l acc = Some c ->
  acc = Some c \/ (In c l /\ strict_eq (key_of c) k = true).
Proof.
  revert acc. induction l as [|a l IH]; intros acc H; simpl in H; [now left|].
  destruct (strict_eq (key_of a) k) eqn:E; apply IH in H as [H|[H1 H2]];
    try (right; split; [now right | exact H2]).
  - injection H as <-. right. split; [now left | exact E].
  - now left.
Qed.

Lemma map_get_some l k c : map_get l k = Some c -> In c l /\ strict_eq (key_of c) k = true.
Proof. unfold map_get. intros H. apply map_get_fold_some in H as [H|H]; [discriminate | exact H]. Qed.

(** Writing back records read from the store keeps which keys are found. *)
Lemma existsb_reload d kept k :
  (forall x, In x kept -> In x (load d)) ->
  existsb (fun c => strict_eq (key_of c) (FVal (JStr k))) (load (save d kept))
  = existsb (fun c => strict_eq (key_of c) (FVal (JStr k))) kept.
Proof.
  intros Sub. rewrite !existsb_key_map.
  assert (D : forall x, In x kept -> is_defined x = true)
    by (intros x Hx; apply (load_defined d), Sub, Hx).
  unfold load at 1. cbn [block save].
  destruct (load_citations_all kept D) as [E|E]; rewrite E.
  - rewrite !map_map. f_equal. apply map_ext_in. intros x Hx. apply (load_key_stable d), Sub, Hx.
  - unfold load_citations in E. rewrite filter_all in E by exact D.
    destruct kept as [|x [|y l]]; [reflexivity | | discriminate].
    simpl. destruct (strict_eq (key_of x) (FVal (JStr k))) eqn:S; [|reflexivity].
    apply strict_eq_str in S. destruct (keyed_obj x k S) as [fs [-> K]].
    destruct (xml_value_keyed fs k K) as [Xv _].
    cbn [map] in E. rewrite Xv in E. discriminate.
Qed.

Lemma existsb_filter {A} (p q : A -> bool) l :
  existsb q (filter p l) = existsb (fun x => p x && q x) l.
Proof. induction l as [|a l IH]; simpl; [reflexivity|]. destruct (p a); simpl; now rewrite IH. Qed.

Lemma existsb_and_implied {A} (p q : A -> bool) l :
  (forall x, q x = true -> p x = true) ->
  existsb (fun x => p x && q x) l = existsb q l.
Proof.
  intros H. induction l as [|a l IH]; simpl; [reflexivity|]. rewrite IH.
  destruct (q a) eqn:Q; [now rewrite (H a Q) | now rewrite andb_false_r].
Qed.

Lemma strict_other f k k' :
  k' <> k -> strict_eq f (FVal (JStr k')) = true -> negb (strict_eq f (FVal (JStr k))) = true.
Proof.
  intros N E. apply strict_eq_str in E. subst. simpl.
  apply negb_true_iff, String.eqb_neq, N.
Qed.

Lemma existsb_set_has U K k l :
  K = FVal (JStr k) ->
  existsb (fun x => set_has U (key_of x) && strict_eq (key_of x) K) l
  = existsb (fun x => strict_eq (key_of x) K) l && includes U k.
Proof.
  intros ->. induction l as [|a l IH]; simpl; [reflexivity|]. rewrite IH.
  destruct (strict_eq (key_of a) (FVal (JStr k))) eqn:E.
  - apply strict_eq_str in E. rewrite E. simpl.
    destruct (includes U k); simpl; [reflexivity | now rewrite andb_false_r].
  - rewrite andb_false_r. reflexivity.
Qed.

(** After [remove k] no record is left under [k]. *)
Lemma remove_gone d k :
  forall c, In c (load (snd (remove k d))) -> strict_eq (key_of c) (FVal (JStr k)) = false.
Proof.
  unfold remove. set (p := fun cit => negb (strict_eq (key_of cit) (FVal (JStr k)))).
  destruct (Nat.ltb_spec (length (filter p (load d))) (length (load d))) as [L|L]; cbn [snd].
  - intros c Hc. destruct (in_load _ c Hc) as [y [Hy [_ ->]]]. cbn [block save] in Hy.
    apply filter_In in Hy as [Hy Py]. rewrite (load_key_stable d y Hy).
    unfold p in Py. now destruct (strict_eq _ _).
  - intros c Hc. destruct (strict_eq (key_of c) (FVal (JStr k))) eqn:E; [|reflexivity].
    assert (length (filter p (load d)) < length (load d)); [|lia].
    apply filter_lt_iff. exists c. split; [exact Hc|]. unfold p. now rewrite E.
Qed.

Lemma remove_absent d k :
  (forall c, In c (load d) -> strict_eq (key_of c) (FVal (JStr k)) = false) ->
  remove k d = (false, d).
Proof.
  intros H. unfold remove. rewrite filter_all; [now rewrite Nat.ltb_irrefl|].
  intros x Hx. now rewrite (H x Hx).
Qed.

Lemma normalize_key_string v :
  truthy_f (key_of (normalize v)) = true -> is_string_f (key_of (normalize v)) = true.
Proof.
  destruct v as [| | | | fs]; try (intros H; discriminate H).
  destruct (normalize_key fs) as [fs2 [-> K2]]. unfold key_of. rewrite K2.
  destruct (get_field fs "key") as [f|]; [|intros H; discriminate H]. simpl.
  unfold norm_key. destruct (truthy_f f) eqn:T; destruct (is_string_f f) eqn:S;
    simpl; intros; congruence.
Qed.

Lemma creators_stage fs1 fs w :
  match get_field fs1 "creators" with
  | Some (FVal c) => if truthy c then set_field fs1 "creators" (FArr [c]) else fs1
  | _ => fs1
  end = fs ->
  get_field fs "creators" = Some (FVal w) -> truthy w = false.
Proof.
  destruct (get_field fs1 "creators") as [[c|vs]|] eqn:C; intros <- G; try congruence.
  destruct (truthy c) eqn:T.
  - rewrite get_set_same in G by congruence. discriminate.
  - congruence.
Qed.

Lemma normalize_creators v fs w :
  normalize v = JObj fs -> get_field fs "creators" = Some (FVal w) -> truthy w = false.
Proof.
  destruct v as [| | | | fs0]; try (intros E; discriminate E).
  intros E G. unfold normalize in E. injection E as E.
  eapply creators_stage; [exact E | exact G].
Qed.

End ExtraStoreFacts.

(** ** Further properties of the store *)
Module ExtraStore.
Import Js Store StoreSpec StoreExamples TrimFacts FieldFacts LoadFacts OpFacts PlainFacts
  SlideStore ExtraStoreFacts.

(** Every record [getCitationStoreXml] returns is defined, a truthy key is
    a string, and a [creators] property holding a single value holds a
    falsy one (a truthy single creator is wrapped in an array). *)
Theorem load_normalized (d : Doc) (c : jsval) :
  In c (load d) ->
  is_defined c = true
  /\ (truthy_f (key_of c) = true -> is_string_f (key_of c) = true)
  /\ (forall fs w, c = JObj fs -> get_field fs "creators" = Some (FVal w) -> truthy w = false).
Proof.
  intros H. split; [now apply (load_defined d)|].
  destruct (in_load d c H) as [y [_ [_ ->]]]. split.
  - apply normalize_key_string.
  - intros fs w E G. exact (normalize_creators _ fs w E G).
Qed.

Lemma load_normalized_witness :
  In (rec_of "A") (load doc_A)
  /\ is_defined (rec_of "A") = true.
Proof.
  assert (H : In (rec_of "A") (load doc_A)) by (vm_compute; left; reflexivity).
  split; [exact H | exact (proj1 (load_normalized doc_A (rec_of "A") H))].
Defined.

(** [remove k] twice: the second call finds nothing, returns [false] and
    leaves the document as the first call left it. *)
Theorem remove_twice (d : Doc) (k : string) :
  remove k (snd (remove k d)) = (false, snd (remove k d)).
Proof. apply remove_absent, remove_gone. Qed.

(** [remove k] does not change whether another key is found. *)
Theorem remove_frame (d : Doc) (k k' : string) :
  k' <> k -> is_some (getItem1 k' (snd (remove k d))) = is_some (getItem1 k' d).
Proof.
  intros N. unfold getItem1. rewrite !map_get_is_some. unfold remove.
  destruct (Nat.ltb _ _); cbn [snd]; [|reflexivity].
  rewrite existsb_reload by (intros x Hx; now apply filter_In in Hx as [Hx _]).
  rewrite existsb_filter. apply existsb_and_implied.
  intros x E. exact (strict_other _ _ _ N E).
Qed.

Lemma remove_frame_witness :
  "B" <> "A" /\ is_some (getItem1 "B" (snd (remove "A" doc_ABC))) = true.
Proof.
  split; [discriminate|].
  rewrite (remove_frame doc_ABC "A" "B") by discriminate. vm_compute. reflexivity.
Defined.

(** [getAll] builds its map in store order, so with several records
    under one key [getItem] returns the last one. *)
Theorem getItem_last_wins (d : Doc) (pre post : list jsval) (c : jsval) (k : string) :
  load d = (pre ++ c :: post)%list -> key_of c = FVal (JStr k) ->
  (forall x, In x post -> key_of x <> FVal (JStr k)) ->
  getItem [k] d = [Some c].
Proof.
  intros E Kc Post. unfold getItem. rewrite E. cbn [map]. f_equal.
  unfold map_get. rewrite fold_left_app. cbn [fold_left].
  rewrite Kc. simpl. rewrite String.eqb_refl.
  apply map_get_none_acc. intros x Hx.
  destruct (strict_eq (key_of x) (FVal (JStr k))) eqn:S; [|reflexivity].
  apply strict_eq_str in S. now destruct (Post x Hx).
Qed.

Lemma getItem_last_wins_witness :
  let first := JObj [("key", FVal (JStr "A")); ("title", FVal (JStr "Old"))] in
  let last := JObj [("key", FVal (JStr "A")); ("title", FVal (JStr "New"))] in
  let d := {| block := [first; last]; saves := 0; slides := [] |} in
  load d = ([first] ++ [last])%list /\ getItem ["A"] d = [Some last].
Proof.
  cbv zeta. split; [vm_compute; reflexivity|].
  apply (getItem_last_wins _ [JObj [("key", FVal (JStr "A")); ("title", FVal (JStr "Old"))]] []);
    [vm_compute; reflexivity | reflexivity | intros x []].
Defined.





(** After [prune] a key is found exactly when it was found before and some
    slide lists it. *)
Theorem prune_found (d : Doc) (k : string) :
  is_some (getItem1 k (snd (prune d))) = true
  <-> is_some (getItem1 k d) = true
      /\ exists tag, In tag (slides d) /\ In k (Slides.getCitationKeysOnSlide tag).
Proof.
  unfold getItem1. rewrite !map_get_is_some. unfold prune. cbn [snd].
  rewrite existsb_reload by (intros x Hx; now apply filter_In in Hx as [Hx _]).
  rewrite existsb_filter, (existsb_set_has _ _ k) by reflexivity.
  rewrite andb_true_iff, SlideFacts.includes_In.
  assert (U : used_keys (slides d) = flat_map Slides.getCitationKeysOnSlide (slides d))
    by reflexivity.
  rewrite U, in_flat_map. reflexivity.
Qed.

End ExtraStore.

(** ** Facts about slide key removal, reordering and reading *)
Module ExtraSlideFacts.
Import Js Store Slides StoreSpec SlideFacts SlideStore LoadFacts OpFacts PlainFacts
  ExtraStoreFacts.

Lemma first_occurrence (l : list string) k :
  In k l -> exists pre post, l = (pre ++ k :: post)%list /\ ~ In k pre.
Proof.
  induction l as [|x l IH]; intros H; [destruct H|].
  destruct (string_dec x k) as [->|N].
  - exists [], l. split; [reflexivity | intros []].
  - destruct H as [->|H]; [contradiction|].
    destruct (IH H) as [pre [post [E Npre]]]. exists (x :: pre), post. split.
    + now rewrite E.
    + intros [->|Hin]; [contradiction | exact (Npre Hin)].
Qed.

Lemma index_of_first pre k post i :
  ~ In k pre -> index_of_from (pre ++ k :: post) k i = Z.of_nat (i + length pre).
Proof.
  revert i. induction pre as [|x pre IH]; intros i N; simpl.
  - rewrite String.eqb_refl. f_equal. lia.
  - destruct (String.eqb_spec x k) as [->|_]; [destruct N; now left|].
    rewrite IH by (intros H; apply N; now right). f_equal. lia.
Qed.

Lemma remove_at_middle {A} (pre post : list A) x :
  remove_at (length pre) (pre ++ x :: post) = (pre ++ post)%list.
Proof. induction pre as [|y pre IH]; simpl; [reflexivity | now rewrite IH]. Qed.

Lemma splice_first pre k post :
  ~ In k pre ->
  splice_one (pre ++ k :: post) (index_of (pre ++ k :: post) k) = (pre ++ post)%list.
Proof.
  intros N. unfold index_of. rewrite index_of_first by exact N. simpl (0 + _).
  unfold splice_one. rewrite length_app. cbn [length].
  replace (Z.of_nat (length pre) <? 0)%Z with false by (symmetry; apply Z.ltb_ge; lia).
  rewrite Z.min_l by lia. rewrite Nat2Z.id. apply remove_at_middle.
Qed.

Lemma join_split v : join_on "," (split_on "," v) = v.
Proof.
  induction v as [|c s IH]; [reflexivity|].
  cbn [split_on]. destruct (split_on "," s) as [|p ps] eqn:E.
  { destruct (split_nonempty "," s) as [? [? E']]. congruence. }
  destruct (is_char c ",") eqn:C.
  - apply ParserFacts.is_char_true in C. subst c.
    change (join_on "," (EmptyString :: p :: ps)) with (String "," (join_on "," (p :: ps))).
    now rewrite IH.
  - destruct ps as [|q qs].
    + simpl in IH. subst p. reflexivity.
    + change (String c (join_on "," (p :: q :: qs)) = String c s). now rewrite IH.
Qed.

(** The tag written after reading it back: a missing tag becomes empty. *)
Lemma join_keys tag :
  join_on "," (getCitationKeysOnSlide tag) = match tag with Some v => v | None => "" end.
Proof.
  destruct tag as [v|]; [|reflexivity]. simpl.
  destruct (String.eqb_spec v "") as [->|_]; [reflexivity | apply join_split].
Qed.

Lemma split_single_empty sep s : split_on sep s = [""] -> s = "".
Proof.
  destruct s as [|c s]; [reflexivity|]. cbn [split_on].
  destruct (split_nonempty sep s) as [p [ps E]]. rewrite E.
  destruct (is_char c sep); discriminate.
Qed.

Lemma keys_not_single_empty tag : getCitationKeysOnSlide tag <> [""].
Proof.
  destruct tag as [v|]; simpl; [|discriminate].
  destruct (String.eqb_spec v "") as [_|N]; [discriminate|].
  intros E. exact (N (split_single_empty _ _ E)).
Qed.

Lemma join_empty l : l <> [] -> join_on "," l = "" -> l = [""].
Proof.
  destruct l as [|x [|y r]]; intros NE E; [contradiction | simpl in E; now subst|].
  change (x ++ String "," (join_on "," (y :: r)) = "") in E. destruct x; discriminate.
Qed.

Lemma keys_join l :
  l <> [""] -> Forall (fun p => has_comma p = false) l ->
  getCitationKeysOnSlide (Some (join_on "," l)) = l.
Proof.
  intros N F. destruct l as [|x r]; [reflexivity|]. unfold getCitationKeysOnSlide.
  destruct (String.eqb_spec (join_on "," (x :: r)) "") as [E|_].
  - apply join_empty in E; [contradiction | discriminate].
  - apply split_join; [discriminate | exact F].
Qed.

Definition found_list (l : list (option jsval)) : list jsval :=
  flat_map (fun o => match o with Some c => [c] | None => [] end) l.

Lemma found_truthy d k c : getItem1 k d = Some c -> truthy c = true.
Proof.
  intros H. apply map_get_some in H as [_ S]. apply strict_eq_str in S.
  destruct (keyed_obj c k S) as [fs [-> _]]. reflexivity.
Qed.

Lemma getCitations_fold d keys acc :
  fold_left (fun citations k =>
               match getItem1 k d with
               | Some citation => if truthy citation then (citations ++ [citation])%list
                                  else citations
               | None => citations
               end) keys acc
  = (acc ++ found_list (map (fun k => getItem1 k d) keys))%list.
Proof.
  revert acc. induction keys as [|k keys IH]; intros acc; simpl; [now rewrite app_nil_r|].
  rewrite IH. destruct (getItem1 k d) as [c|] eqn:G.
  - rewrite (found_truthy d k c G). now rewrite <- app_assoc.
  - reflexivity.
Qed.

Lemma found_list_length l : length (found_list l) <= length l.
Proof. induction l as [|[c|] l IH]; simpl; lia. Qed.

Lemma nth_set_nth_same {A} (l : list A) j x d :
  j < length l -> nth j (set_nth l j x) d = x.
Proof.
  revert j. induction l as [|y l IH]; intros j L; simpl in L; [lia|].
  destruct j as [|j]; simpl; [reflexivity | apply IH; lia].
Qed.

Lemma nth_set_nth_other {A} (l : list A) j i x d :
  i <> j -> nth i (set_nth l j x) d = nth i l d.
Proof.
  revert i j. induction l as [|y l IH]; intros i j N; [reflexivity|].
  destruct j as [|j], i as [|i]; simpl; try reflexivity; [lia|]. apply IH. lia.
Qed.

Lemma addKey_lists tag k :
  k <> "" -> has_comma k = false -> In k (getCitationKeysOnSlide (addCitationKeyToSlide k tag)).
Proof.
  intros K C. unfold addCitationKeyToSlide.
  destruct (includes (getCitationKeysOnSlide tag) k) eqn:I; cbn [negb].
  - now apply includes_In.
  - rewrite (keys_after_add tag k K C). apply in_or_app. right. now left.
Qed.

End ExtraSlideFacts.

(** ** Removing, reordering, inserting and reading the citations of a slide *)
Module ExtraSlides.
Import Js Store Slides StoreSpec StoreExamples SlideFacts SlideStore LoadFacts OpFacts
  PlainFacts ExtraStoreFacts ExtraSlideFacts.

(** [removeCitationFromSlide k] on a slide not listing [k] returns [false]
    and leaves the tag alone; otherwise it removes the first occurrence of
    [k] from the list, writes the rest back and returns [true]. *)
Theorem removeCitation_first (tag : option string) (k : string) :
  (~ In k (getCitationKeysOnSlide tag) -> removeCitationFromSlide k tag = (false, tag))
  /\ (In k (getCitationKeysOnSlide tag) ->
      exists pre post, getCitationKeysOnSlide tag = (pre ++ k :: post)%list /\ ~ In k pre
        /\ removeCitationFromSlide k tag = (true, Some (join_on "," (pre ++ post)))).
Proof.
  split.
  - intros N. unfold removeCitationFromSlide.
    destruct (includes (getCitationKeysOnSlide tag) k) eqn:I; [|reflexivity].
    apply includes_In in I. contradiction.
  - intros H. destruct (first_occurrence _ k H) as [pre [post [E N]]].
    exists pre, post. split; [exact E|]. split; [exact N|].
    assert (I : includes (pre ++ k :: post) k = true) by (apply includes_In; rewrite <- E; exact H).
    unfold removeCitationFromSlide. rewrite E. cbv zeta. rewrite I. cbn [negb].
    now rewrite splice_first by exact N.
Qed.

Lemma removeCitation_first_witness :
  removeCitationFromSlide "Z" (Some "A,B") = (false, Some "A,B")
  /\ exists pre post, getCitationKeysOnSlide (Some "A,B,C,B") = (pre ++ "B" :: post)%list
       /\ ~ In "B" pre
       /\ removeCitationFromSlide "B" (Some "A,B,C,B") = (true, Some (join_on "," (pre ++ post))).
Proof.
  split.
  - apply (proj1 (removeCitation_first (Some "A,B") "Z")). simpl.
    intros [H|[H|[]]]; discriminate H.
  - apply (proj2 (removeCitation_first (Some "A,B,C,B") "B")). simpl. auto.
Defined.

(** Adding a key the slide does not list and then removing it gives back
    the slide's tag (a missing tag comes back empty), and the call reports
    [true]. *)
Theorem remove_after_add (tag : option string) (k : string) :
  k <> "" -> has_comma k = false -> ~ In k (getCitationKeysOnSlide tag) ->
  removeCitationFromSlide k (addCitationKeyToSlide k tag)
  = (true, Some (match tag with Some v => v | None => "" end)).
Proof.
  intros K C N.
  assert (I : includes (getCitationKeysOnSlide tag) k = false).
  { destruct (includes _ k) eqn:I; [apply includes_In in I; contradiction | reflexivity]. }
  assert (Add : addCitationKeyToSlide k tag = Some (join_on "," (getCitationKeysOnSlide tag ++ [k])))
    by (unfold addCitationKeyToSlide; now rewrite I).
  rewrite Add. unfold removeCitationFromSlide. rewrite (keys_after_add tag k K C).
  assert (I2 : includes (getCitationKeysOnSlide tag ++ [k]) k = true)
    by (apply includes_In, in_or_app; right; now left).
  cbv zeta. rewrite I2. cbn [negb].
  rewrite (splice_first (getCitationKeysOnSlide tag) k [] N), app_nil_r, join_keys.
  reflexivity.
Qed.

Lemma remove_after_add_witness :
  removeCitationFromSlide "C" (addCitationKeyToSlide "C" (Some "A,B")) = (true, Some "A,B").
Proof.
  apply (remove_after_add (Some "A,B") "C"); [discriminate | reflexivity |].
  simpl. intros [H|[H|[]]]; discriminate H.
Defined.

(** [updateCitationKeysOrder] with a reordering of the slide's keys: the
    keys read back are exactly the new order. *)
Theorem reorder_roundtrip (tag : option string) (l : list string) :
  Permutation l (getCitationKeysOnSlide tag) ->
  getCitationKeysOnSlide (updateCitationKeysOrder l) = l.
Proof.
  intros P. unfold updateCitationKeysOrder. apply keys_join.
  - intros ->. apply (keys_not_single_empty tag). now apply Permutation_length_1_inv.
  - apply Forall_forall. intros x Hx. pose proof (keys_pieces tag) as F.
    rewrite Forall_forall in F. apply F. eapply Permutation_in; eassumption.
Qed.

Lemma reorder_roundtrip_witness :
  Permutation ["B"; "C"; "A"] (getCitationKeysOnSlide (Some "A,B,C"))
  /\ getCitationKeysOnSlide (updateCitationKeysOrder ["B"; "C"; "A"]) = ["B"; "C"; "A"].
Proof.
  assert (P : Permutation ["B"; "C"; "A"] (getCitationKeysOnSlide (Some "A,B,C"))).
  { change (Permutation ["B"; "C"; "A"] ["A"; "B"; "C"]).
    apply Permutation_sym, (Permutation_cons_append ["B"; "C"] "A"). }
  split; [exact P | exact (reorder_roundtrip _ _ P)].
Defined.

(** [getCitationsOnSlide] is [getItem] on the slide's keys with the keys
    not found dropped (its [if (citation)] test drops nothing: a record
    found under a key is an object); each record returned is in the store
    under a key the slide lists, and there are at most as many records as
    keys. *)
Theorem getCitationsOnSlide_found (d : Doc) (tag : option string) :
  getCitationsOnSlide d tag = found_list (getItem (getCitationKeysOnSlide tag) d)
  /\ (forall c, In c (getCitationsOnSlide d tag) ->
        In c (load d) /\ exists k, In k (getCitationKeysOnSlide tag) /\ key_of c = FVal (JStr k))
  /\ length (getCitationsOnSlide d tag) <= length (getCitationKeysOnSlide tag).
Proof.
  assert (E : getCitationsOnSlide d tag = found_list (getItem (getCitationKeysOnSlide tag) d)).
  { unfold getCitationsOnSlide. rewrite getCitations_fold. reflexivity. }
  split; [exact E|]. split.
  - intros c Hc. rewrite E in Hc. unfold found_list, getItem in Hc. cbv zeta in Hc.
    apply in_flat_map in Hc as [o [Ho Hc]]. apply in_map_iff in Ho as [k [<- Hk]].
    destruct (map_get _ _) eqn:G; [|destruct Hc]. destruct Hc as [<-|[]].
    apply map_get_some in G as [Hin S]. split; [exact Hin|].
    exists k. split; [exact Hk | now apply strict_eq_str].
  - rewrite E. unfold getItem. etransitivity; [apply found_list_length|].
    rewrite length_map. lia.
Qed.



End ExtraSlides.

(** ** Facts about the formatter's text handling *)
Module FormatFacts.
Import Formatter ReplaceSpec StrFacts ParserFacts.

Lemma getCreator_one l f : length l = 1 -> exists m, getCreator l f = Throw m.
Proof. destruct l as [|x [|y r]]; intros L; try discriminate L. eexists. reflexivity. Qed.

Lemma getCreator_ok l f : length l <> 1 -> exists s, getCreator l f = Ok s.
Proof.
  destruct l as [|x [|y r]]; intros L; [eexists; reflexivity | contradiction | ].
  eexists. reflexivity.
Qed.

Lemma format_throws_one fmt lookup c index startIndex :
  length (creators c) = 1 -> exists m, format fmt lookup c index startIndex = Throw m.
Proof.
  intros L. destruct (getCreator_one _ "Unknown" L) as [m G].
  exists m. unfold format. rewrite G. reflexivity.
Qed.

Lemma digits_of_uint u :
  forallb Js.is_digit (list_ascii_of_string (NilEmpty.string_of_uint u)) = true.
Proof. induction u; simpl; try rewrite IHu; reflexivity. Qed.

Lemma nat_to_string_digits n : forallb Js.is_digit (list_ascii_of_string (nat_to_string n)) = true.
Proof. apply digits_of_uint. Qed.

Lemma nat_to_string_nonempty n : nat_to_string n <> "".
Proof.
  unfold nat_to_string. destruct (Nat.to_uint n) as [| u | u | u | u | u | u | u | u | u | u] eqn:E;
    try discriminate.
  pose proof (DecimalNat.Unsigned.of_to n) as H. rewrite E in H. simpl in H. subst n.
  discriminate E.
Qed.

Lemma digit_no_char c d : Js.is_digit c = true -> Js.is_digit d = false -> negb (is_char c d) = true.
Proof.
  intros Hc Hd. destruct (is_char c d) eqn:E; [|reflexivity].
  apply is_char_true in E. subst. congruence.
Qed.

Lemma digits_no_char d s :
  Js.is_digit d = false -> forallb Js.is_digit (list_ascii_of_string s) = true -> no_char d s = true.
Proof.
  intros Hd. unfold no_char. induction (list_ascii_of_string s) as [|c l IH]; [reflexivity|].
  simpl. intros H. apply andb_prop in H as [Hc Hl]. rewrite (digit_no_char c d Hc Hd). now apply IH.
Qed.

Lemma expand_no_dollar rep m b a : no_char "$" rep = true -> expand_replacement rep m b a = rep.
Proof.
  unfold no_char. induction rep as [|c r IH]; intros H; [reflexivity|].
  simpl in H. apply andb_prop in H as [Hc Hr]. apply negb_true_iff in Hc.
  simpl. rewrite Hc. now rewrite IH.
Qed.

Lemma tag_at_no_lt c s : is_char c "<" = false -> tag_at (String c s) = None.
Proof.
  intros E. destruct s as [|c2 [|c3 r]]; try reflexivity.
  unfold tag_at. rewrite E. simpl. destruct r; reflexivity.
Qed.

Lemma exec_no_lt s : no_char "<" s = true -> exec s = None.
Proof.
  unfold no_char. induction s as [|c s IH]; intros H; [reflexivity|].
  simpl in H. apply andb_prop in H as [Hc Hs]. apply negb_true_iff in Hc.
  rewrite exec_eq, (tag_at_no_lt c s Hc), (IH Hs). reflexivity.
Qed.

Lemma prefix_app p t : String.prefix p (p ++ t) = true.
Proof.
  induction p as [|c p IH]; [destruct t; reflexivity|]. simpl.
  destruct (ascii_dec c c) as [_|N]; [exact IH | contradiction].
Qed.

Lemma substring_shift p m b : substring (String.length p) m (p ++ b) = substring 0 m b.
Proof. induction p as [|c p IH]; simpl; [reflexivity | exact IH]. Qed.

Lemma substring_all b : substring 0 (String.length b) b = b.
Proof. induction b as [|c b IH]; simpl; [reflexivity | now rewrite IH]. Qed.

Lemma substring_after p b :
  substring (String.length p) (String.length (p ++ b) - String.length p) (p ++ b) = b.
Proof.
  rewrite length_app_s. replace (String.length p + String.length b - String.length p)
    with (String.length b) by lia.
  rewrite substring_shift. apply substring_all.
Qed.

Lemma replace_aux_eq pat rep before s :
  replace_aux pat rep before s =
  if String.prefix pat s then
    Some (expand_replacement rep pat before
            (substring (String.length pat) (String.length s - String.length pat) s)
          ++ substring (String.length pat) (String.length s - String.length pat) s)
  else
    match s with
    | EmptyString => None
    | String c s' => option_map (String c) (replace_aux pat rep (before ++ String c EmptyString) s')
    end.
Proof. destruct s; reflexivity. Qed.

Lemma replace_aux_shift pat rep before a t :
  absent_in pat a t = true ->
  replace_aux pat rep before (a ++ t)
  = option_map (fun r => a ++ r) (replace_aux pat rep (before ++ a) t).
Proof.
  revert before. induction a as [|c a IH]; intros before H.
  - cbn [append]. rewrite app_empty_r. destruct (replace_aux pat rep before t); reflexivity.
  - cbn [absent_in] in H. apply andb_prop in H as [Hp Ha]. apply negb_true_iff in Hp.
    change (String c a ++ t) with (String c (a ++ t)). rewrite replace_aux_eq.
    change (String c a ++ t) with (String c (a ++ t)) in Hp. rewrite Hp.
    rewrite (IH _ Ha), app_assoc_s. change (String c EmptyString ++ a) with (String c a).
    destruct (replace_aux pat rep (before ++ String c a) t); reflexivity.
Qed.

(** [s.replace(pat, rep)] leaves [s] unchanged when [pat] does not occur. *)
Lemma js_replace_absent_h pat s rep :
  pat <> "" -> absent_in pat s "" = true -> js_replace s pat rep = s.
Proof.
  intros P H. unfold js_replace.
  replace (replace_aux pat rep "" s) with (replace_aux pat rep "" (s ++ "")) by now rewrite app_empty_r.
  rewrite (replace_aux_shift pat rep "" s "" H).
  assert (N : replace_aux pat rep ("" ++ s) "" = None) by (destruct pat; [contradiction | reflexivity]).
  now rewrite N.
Qed.

(** At the first occurrence of [pat], [rep] (without [$] patterns) is
    put in its place. *)
Lemma js_replace_first_h pat a b rep :
  absent_in pat a (pat ++ b) = true -> no_char "$" rep = true ->
  js_replace (a ++ pat ++ b) pat rep = a ++ rep ++ b.
Proof.
  intros H R. unfold js_replace. rewrite (replace_aux_shift pat rep "" a (pat ++ b) H).
  rewrite replace_aux_eq, prefix_app, substring_after, expand_no_dollar by exact R.
  reflexivity.
Qed.

Lemma parse_no_lt s :
  no_char "<" s = true -> parseFormattedText s = push_text s false false.
Proof. intros H. unfold parseFormattedText. cbn [parse_loop]. now rewrite exec_no_lt. Qed.

Lemma split_no_sep sep y : no_char sep y = true -> split_on sep y = [y].
Proof.
  unfold no_char. induction y as [|c y IH]; intros H; [reflexivity|].
  cbn [list_ascii_of_string forallb] in H. apply andb_prop in H as [Hc Hy].
  apply negb_true_iff in Hc. cbn [split_on]. rewrite (IH Hy), Hc. reflexivity.
Qed.

Lemma split_sep_app sep y rest :
  no_char sep y = true -> exists ps, split_on sep (y ++ String sep rest) = y :: ps.
Proof.
  unfold no_char. induction y as [|c y IH]; intros H.
  - cbn [append split_on]. destruct (SlideFacts.split_nonempty sep rest) as [p [ps E]].
    rewrite E. unfold is_char. rewrite Ascii.eqb_refl. eauto.
  - cbn [list_ascii_of_string forallb] in H. apply andb_prop in H as [Hc Hy].
    apply negb_true_iff in Hc. destruct (IH Hy) as [ps E].
    cbn [append split_on]. rewrite E, Hc. eauto.
Qed.

Lemma render_throws {A} fmt delimiter total (c : A) cits :
  (forall i, exists m, fmt i c = Throw m) -> In (Some c) cits ->
  forall idx, exists m, Slides.render_loop fmt delimiter total idx cits = Throw m.
Proof.
  intros F. induction cits as [|[c'|] cits IH]; intros H idx; [destruct H| |].
  - cbn [Slides.render_loop]. destruct (fmt idx c') as [seg|m] eqn:E; cbn [bind].
    + destruct H as [H|H].
      * injection H as ->. destruct (F idx) as [m Hm]. congruence.
      * destruct (IH H (S idx)) as [m Hm]. rewrite Hm. now exists m.
    + now exists m.
  - destruct H as [H|H]; [discriminate H|]. apply (IH H).
Qed.

Lemma render_present {A} fmt delimiter (g : nat -> A -> list FormattedText) total cs :
  (forall i c, In c cs -> fmt i c = Ok (g i c)) ->
  forall idx, idx + length cs = total ->
  Slides.render_loop fmt delimiter total idx (map Some cs)
  = Ok (RenderSpec.intercalate {| text := delimiter; bold := false; italic := false |}
          (RenderSpec.indexed g idx cs)).
Proof.
  intros H. induction cs as [|c cs IH]; intros idx T; [reflexivity|].
  cbn [map Slides.render_loop]. rewrite (H idx c (or_introl eq_refl)). cbn [bind].
  rewrite (IH (fun i c' Hc' => H i c' (or_intror Hc')) (S idx)) by (simpl in T; lia).
  cbn [bind]. destruct cs as [|c2 cs'].
  - simpl in T. replace (Nat.ltb idx (total - 1)) with false by (symmetry; apply Nat.ltb_ge; lia).
    simpl. now rewrite !app_nil_r.
  - simpl in T. replace (Nat.ltb idx (total - 1)) with true by (symmetry; apply Nat.ltb_lt; lia).
    reflexivity.
Qed.

End FormatFacts.

(** ** Further properties of the formatter and of the rendering loop *)
Module ExtraFormat.
Import Formatter Slides RenderSpec ReplaceSpec StrFacts ParserFacts FormatFacts.

(** [format] throws, whatever the template, exactly when the citation has
    one creator (the length-1 branch of [getCreator] reads [creators[1]]). *)
Theorem format_throws_iff_one_creator fmt lookup c index startIndex :
  (exists m, format fmt lookup c index startIndex = Throw m) <-> length (creators c) = 1.
Proof.
  destruct (Nat.eq_dec (length (creators c)) 1) as [L|L].
  - split; [intros _; exact L | intros _; now apply format_throws_one].
  - destruct (getCreator_ok _ "Unknown" L) as [s G]. unfold format. rewrite G.
    split; [intros [m H]; discriminate H | intros E; contradiction].
Qed.

(** [showCitationsOnSlide] fails (its loop rejects before the text box is
    written) as soon as one listed item found has exactly one creator. *)
Theorem show_throws_single_creator template delimiter lookup items keys k c :
  In k keys -> lookup_item items k = Some c -> length (creators c) = 1 ->
  exists m, show_segments template delimiter lookup items keys = Throw m.
Proof.
  intros Hk Lk L. unfold show_segments. apply (render_throws _ _ _ c).
  - intros i. now apply format_throws_one.
  - rewrite <- Lk. now apply in_map.
Qed.

Lemma show_throws_single_creator_witness :
  let solo := {| key := "S"; creators := [{| creatorType := "author"; firstName := None;
                                              lastName := Some "Solo"; name := None |}];
                 fields := [] |} in
  exists m, show_segments "{creator}" ";" (fun _ => None) [solo] ["S"] = Throw m.
Proof.
  cbv zeta. eapply (show_throws_single_creator _ _ _ _ _ "S"); [now left | reflexivity | reflexivity].
Defined.

(** When every key is found and every [format] call succeeds, the loop of
    [showCitationsOnSlide] emits the segments of each citation in order with
    the delimiter exactly between consecutive ones. *)
Theorem render_all_present {A} (fmt : nat -> A -> Result (list FormattedText))
  (delimiter : string) (g : nat -> A -> list FormattedText) (cs : list A) :
  (forall i c, In c cs -> fmt i c = Ok (g i c)) ->
  render_loop fmt delimiter (length cs) 0 (map Some cs)
  = Ok (intercalate {| text := delimiter; bold := false; italic := false |} (indexed g 0 cs)).
Proof. intros H. now apply render_present. Qed.

Lemma render_all_present_witness :
  render_loop (fun _ (c : string) => Ok [{| text := c; bold := true; italic := false |}]) ", " 3 0
    (map Some ["a"; "b"; "c"])
  = Ok [{| text := "a"; bold := true; italic := false |}; {| text := ", "; bold := false; italic := false |};
        {| text := "b"; bold := true; italic := false |}; {| text := ", "; bold := false; italic := false |};
        {| text := "c"; bold := true; italic := false |}].
Proof.
  exact (render_all_present (fun _ (c : string) => Ok [{| text := c; bold := true; italic := false |}])
           ", " (fun _ c => [{| text := c; bold := true; italic := false |}]) ["a"; "b"; "c"]
           (fun i c _ => eq_refl)).
Defined.

(** The [{#}] placeholder: with an index [i] the template ["{#}"] gives the
    number [i + startIndex + 1] ([startIndex] defaulting to 0) as one plain
    segment, without an index the text ["#"]; both for citations [format]
    does not reject. *)
Theorem format_number lookup c i startIndex :
  length (creators c) <> 1 ->
  format "{#}" lookup c (Some i) startIndex
  = Ok [{| text := nat_to_string (i + match startIndex with Some s => s | None => 0 end + 1);
           bold := false; italic := false |}]
  /\ format "{#}" lookup c None startIndex = Ok [{| text := "#"; bold := false; italic := false |}].
Proof.
  intros L. destruct (getCreator_ok _ "Unknown" L) as [s G].
  split; unfold format; rewrite G; cbv beta iota zeta delta [bind];
    repeat match goal with
           | |- context [js_replace "{#}" ?p ?r] =>
               rewrite (js_replace_absent_h p "{#}" r) by first [discriminate | reflexivity]
           end.
  - set (n := nat_to_string _).
    assert (Dn : forallb Js.is_digit (list_ascii_of_string n) = true) by apply nat_to_string_digits.
    change (js_replace "{#}" "{#}" n) with (expand_replacement n "{#}" "" "" ++ "").
    rewrite expand_no_dollar by (apply digits_no_char; [reflexivity | exact Dn]).
    rewrite app_empty_r, parse_no_lt by (apply digits_no_char; [reflexivity | exact Dn]).
    unfold push_text. destruct (String.eqb_spec n "") as [E|_]; [|reflexivity].
    now destruct (nat_to_string_nonempty _ E).
  - reflexivity.
Qed.

Lemma format_number_witness :
  format "{#}" (fun _ => None) {| key := "K"; creators := []; fields := [] |} (Some 4) (Some 10)
  = Ok [{| text := "15"; bold := false; italic := false |}].
Proof.
  destruct (format_number (fun _ => None) {| key := "K"; creators := []; fields := [] |} 4 (Some 10))
    as [H _]; [simpl; lia | exact H].
Defined.

(** Each placeholder of the template is replaced by [String.prototype.replace]
    with a string pattern: a template without the pattern is left as it is,
    and only the first occurrence is replaced (by a value without [$]
    patterns), later occurrences staying in the text. *)
Theorem js_replace_first_only (pat s a b rep : string) :
  (pat <> "" -> absent_in pat s "" = true -> js_replace s pat rep = s)
  /\ (absent_in pat a (pat ++ b) = true -> no_char "$" rep = true ->
      js_replace (a ++ pat ++ b) pat rep = a ++ rep ++ b).
Proof. split; [apply js_replace_absent_h | apply js_replace_first_h]. Qed.

Lemma js_replace_first_only_witness :
  js_replace "{title} / {title}" "{title}" "Foo" = "Foo / {title}"
  /\ js_replace "{creator} ({year})" "{title}" "Foo" = "{creator} ({year})".
Proof.
  split.
  - exact (proj2 (js_replace_first_only "{title}" "" "" " / {title}" "Foo") eq_refl eq_refl).
  - apply (proj1 (js_replace_first_only "{title}" "{creator} ({year})" "" "" "Foo"));
      [discriminate | reflexivity].
Defined.

(** The [{year}] value: ["n.d."] without a date or with an empty one,
    otherwise the part of the date before its first ["-"] (the whole date
    when it has none). *)
Theorem year_of_prefix (c : ZoteroItemData) :
  (field c "date" = None \/ field c "date" = Some "" -> year_of c = "n.d.")
  /\ (forall y rest, field c "date" = Some (y ++ String "-" rest) -> no_char "-" y = true ->
        year_of c = y)
  /\ (forall y, field c "date" = Some y -> y <> "" -> no_char "-" y = true -> year_of c = y).
Proof.
  unfold year_of. split; [|split].
  - intros [D|D]; rewrite D; reflexivity.
  - intros y rest D N. rewrite D.
    destruct (String.eqb_spec (y ++ String "-" rest) "") as [E|_]; [destruct y; discriminate E|].
    destruct (split_sep_app "-" y rest N) as [ps E]. now rewrite E.
  - intros y D NE N. rewrite D.
    destruct (String.eqb_spec y "") as [E|_]; [contradiction|].
    now rewrite (split_no_sep "-" y N).
Qed.

Lemma year_of_prefix_witness :
  year_of {| key := "K"; creators := []; fields := [("date", "2020-01-31")] |} = "2020".
Proof.
  exact (proj1 (proj2 (year_of_prefix {| key := "K"; creators := []; fields := [("date", "2020-01-31")] |}))
           "2020" "01-31" eq_refl eq_refl).
Defined.

(** Text without ["<"] is one unstyled segment (none when empty). *)
Theorem parse_untagged (s : string) :
  no_char "<" s = true -> parseFormattedText s = push_text s false false.
Proof. apply parse_no_lt. Qed.

Lemma parse_untagged_witness :
  parseFormattedText "Smith 2020, p. 3" = [{| text := "Smith 2020, p. 3"; bold := false; italic := false |}].
Proof. exact (parse_untagged "Smith 2020, p. 3" eq_refl). Defined.

End ExtraFormat.
